(** * MatchingWildcardsInGo: the two wildcard matchers of fastwildcompare.go

    [FastWildCompareAscii] and [FastWildCompareRuneSlices] are embedded as
    they are written: four integer cursors, two top-level [for] loops and
    the small loops nested in them.  A Go string is a list of bytes, a rune
    slice a list of integers; [s[i]] panics outside [0, len s).  The
    cursors stay between 0 and the length they index (the loop invariants
    of [second_loop_spec] and [first_loop_spec]), where Go's [int] does not
    wrap, so they are naturals here. *)

From Stdlib Require Import Strings.String Strings.Byte List Arith Bool Lia ZArith.
Import ListNotations.

Set Implicit Arguments.

(** ** Outcomes of a block of statements *)

Inductive result (A : Type) : Type :=
| Normal (a : A)        (* the block ran to its end, with this state *)
| Returned (b : bool)   (* a [return b] was executed *)
| Panicked              (* an index was out of range *)
| Exhausted.            (* the loop budget of the model ran out *)

Arguments Normal {A} a.
Arguments Returned {A} b.
Arguments Panicked {A}.
Arguments Exhausted {A}.

Definition bind {A B : Type} (m : result A) (k : A -> result B) : result B :=
  match m with
  | Normal a => k a
  | Returned b => Returned b
  | Panicked => Panicked
  | Exhausted => Exhausted
  end.

Declare Scope go_scope.
Delimit Scope go_scope with go.
Notation "x <- m ;; k" := (bind m (fun x => k))
  (at level 61, m at next level, right associativity) : go_scope.
Notation "' p <- m ;; k" := (bind m (fun x => let 'p := x in k))
  (at level 61, p pattern, m at next level, right associativity) : go_scope.
Notation "a >? b" := (Nat.ltb b a) (at level 70) : go_scope.
Open Scope go_scope.

(** How one pass through a loop body ends. *)
Inductive step (S : Type) : Type :=
| Again (s : S)    (* fall through to the next iteration *)
| Leave (s : S).   (* [break], or the loop condition is false *)

Arguments Again {S} s.
Arguments Leave {S} s.

Fixpoint for_ {S : Type} (fuel : nat) (body : S -> result (step S)) (s : S)
  : result S :=
  match fuel with
  | O => Exhausted
  | S n =>
      match body s with
      | Normal (Again s') => for_ n body s'
      | Normal (Leave s') => Normal s'
      | Returned b => Returned b
      | Panicked => Panicked
      | Exhausted => Exhausted
      end
  end.

(** [s[i]]: a run-time panic when [i] is not below [len s]. *)
Definition index {A : Type} (s : list A) (i : nat) : result A :=
  match nth_error s i with
  | Some c => Normal c
  | None => Panicked
  end.

Notation "s @ i" := (index s i) (at level 25, left associativity) : go_scope.

(** Go's short-circuit [a && b]: [b] is evaluated only when [a] holds. *)
Definition and_then (a : bool) (b : result bool) : result bool :=
  if a then b else Normal false.

(** Go's short-circuit [a || b]. *)
Definition or_else (a : bool) (b : result bool) : result bool :=
  if a then Normal true else b.

(** The four cursors: [iWild], [iTame], [iWildSequence], [iTameSequence]. *)
Definition cursor : Type := (nat * nat * nat * nat)%type.

(** The loop budget that [FastWildCompareAscii] and
    [FastWildCompareRuneSlices] run with; [run_returns] shows it is never
    used up. *)
Definition budget {A : Type} (wild tame : list A) : nat :=
  (length wild + 1) * (length tame + 1).

(** ** FastWildCompareAscii (fastwildcompare.go, lines 28-183) *)

Module Ascii.

Definition star : byte := "*"%byte.
Definition quest : byte := "?"%byte.

Section Body.
Variable fuel : nat.
Variables strWild strTame : list byte.

(** Lines 40-46: [for strWild[iWild] == '*' { iWild++; if ... return true }]. *)
Definition trailing_stars (iWild : nat) : result nat :=
  for_ fuel (fun iWild =>
    w <- strWild @ iWild ;;
    if Byte.eqb w star then
      let iWild := S iWild in
      if length strWild <=? iWild then Returned true
      else Normal (Again iWild)
    else Normal (Leave iWild)) iWild.

(** Lines 58-68 and 96-106: skip the run of ['*']. *)
Definition star_run (iWild : nat) : result nat :=
  for_ fuel (fun iWild =>
    let iWild := S iWild in
    if length strWild <=? iWild then Returned true
    else
      w <- strWild @ iWild ;;
      if negb (Byte.eqb w star) then Normal (Leave iWild)
      else Normal (Again iWild)) iWild.

(** Lines 72-78: the subject is read before its length is checked. *)
Definition first_candidate (iWild iTame : nat) : result nat :=
  for_ fuel (fun iTame =>
    w <- strWild @ iWild ;;
    t <- strTame @ iTame ;;
    if negb (Byte.eqb w t) then
      let iTame := S iTame in
      if length strTame <=? iTame then Returned false
      else Normal (Again iTame)
    else Normal (Leave iTame)) iTame.

(** Lines 114-121. *)
Definition next_candidate (iWild iTame : nat) : result nat :=
  for_ fuel (fun iTame =>
    differ <- and_then (length strTame >? iTame)
                (w <- strWild @ iWild ;;
                 t <- strTame @ iTame ;;
                 Normal (negb (Byte.eqb w t))) ;;
    if differ then
      let iTame := S iTame in
      if length strTame <=? iTame then Returned false
      else Normal (Again iTame)
    else Normal (Leave iTame)) iTame.

(** Lines 141-145: "a fine time for questions". *)
Definition questions (iWildSequence iTameSequence : nat) : result (nat * nat) :=
  for_ fuel (fun '(iWildSequence, iTameSequence) =>
    isq <- and_then (length strWild >? iWildSequence)
             (w <- strWild @ iWildSequence ;; Normal (Byte.eqb w quest)) ;;
    if isq then Normal (Again (S iWildSequence, S iTameSequence))
    else Normal (Leave (iWildSequence, iTameSequence)))
    (iWildSequence, iTameSequence).

(** Lines 150-165: "fall back, but never so far again". *)
Definition fall_back (iWild iTameSequence : nat) : result nat :=
  for_ fuel (fun iTameSequence =>
    let iTameSequence := S iTameSequence in
    if length strTame <=? iTameSequence then
      if length strWild <=? iWild then Returned true else Returned false
    else
      found <- and_then (length strWild >? iWild)
                 (w <- strWild @ iWild ;;
                  t <- strTame @ iTameSequence ;;
                  Normal (Byte.eqb w t)) ;;
      if found then Normal (Leave iTameSequence)
      else Normal (Again iTameSequence)) iTameSequence.

(** Lines 141-167: the whole retry, from the checkpoint to the new cursors. *)
Definition backtrack (iWildSequence iTameSequence : nat) : result cursor :=
  '(iWildSequence, iTameSequence) <- questions iWildSequence iTameSequence ;;
  let iWild := iWildSequence in
  iTameSequence <- fall_back iWild iTameSequence ;;
  let iTame := iTameSequence in
  Normal (iWild, iTame, iWildSequence, iTameSequence).

(** Lines 36-90, one pass. *)
Definition first_loop (c : cursor) : result (step cursor) :=
  let '(iWild, iTame, iWildSequence, iTameSequence) := c in
  if length strTame <=? iWild then
    if length strWild >? iWild then
      _ <- trailing_stars iWild ;;
      Returned false
    else Returned true
  else if length strWild <=? iWild then Returned false
  else
    w <- strWild @ iWild ;;
    if Byte.eqb w star then
      let iTame := iWild in
      iWild <- star_run iWild ;;
      w <- strWild @ iWild ;;
      iTame <- (if negb (Byte.eqb w quest) then first_candidate iWild iTame
                else Normal iTame) ;;
      let iWildSequence := iWild in
      let iTameSequence := iTame in
      Normal (Leave (iWild, iTame, iWildSequence, iTameSequence))
    else
      t <- strTame @ iWild ;;
      if negb (Byte.eqb w t) && negb (Byte.eqb w quest) then Returned false
      else Normal (Again (S iWild, iTame, iWildSequence, iTameSequence)).

(** Lines 93-182, one pass. *)
Definition second_loop (c : cursor) : result (step cursor) :=
  let '(iWild, iTame, iWildSequence, iTameSequence) := c in
  wild_again <- and_then (length strWild >? iWild)
                  (w <- strWild @ iWild ;; Normal (Byte.eqb w star)) ;;
  '(iWild, iTame, iWildSequence, iTameSequence) <-
    (if wild_again then
       iWild <- star_run iWild ;;
       if length strTame <=? iTame then Returned false
       else
         w <- strWild @ iWild ;;
         iTame <- (if negb (Byte.eqb w quest) then next_candidate iWild iTame
                   else Normal iTame) ;;
         let iWildSequence := iWild in
         let iTameSequence := iTame in
         Normal (iWild, iTame, iWildSequence, iTameSequence)
     else
       if length strTame <=? iTame then
         if length strWild <=? iWild then Returned true else Returned false
       else
         mismatch <- or_else (length strWild <=? iWild)
                       (w <- strWild @ iWild ;;
                        t <- strTame @ iTame ;;
                        Normal (negb (Byte.eqb w t) && negb (Byte.eqb w quest))) ;;
         if mismatch then backtrack iWildSequence iTameSequence
         else Normal (iWild, iTame, iWildSequence, iTameSequence)) ;;
  if length strTame <=? iTame then
    if length strWild <=? iWild then Returned true else Returned false
  else Normal (Again (S iWild, S iTame, iWildSequence, iTameSequence)).

Definition run : result cursor :=
  c <- for_ fuel first_loop (0, 0, 0, 0) ;;
  for_ fuel second_loop c.

End Body.

Definition FastWildCompareAscii (strWild strTame : list byte) : result cursor :=
  run (budget strWild strTame) strWild strTame.

End Ascii.

(** ** FastWildCompareRuneSlices (fastwildcompare.go, lines 192-347) *)

Module Runes.

(** A rune is an [int32], and the function only compares runes for
    equality; ['*'] is 42 and ['?'] is 63. *)
Definition rune : Type := Z.
Definition star : rune := 42%Z.
Definition quest : rune := 63%Z.

Section Body.
Variable fuel : nat.
Variables rslcWild rslcTame : list rune.

(** Lines 204-210: [for rslcWild[iWild] == '*' { iWild++; if ... return true }]. *)
Definition trailing_stars (iWild : nat) : result nat :=
  for_ fuel (fun iWild =>
    w <- rslcWild @ iWild ;;
    if Z.eqb w star then
      let iWild := S iWild in
      if length rslcWild <=? iWild then Returned true
      else Normal (Again iWild)
    else Normal (Leave iWild)) iWild.

(** Lines 222-232 and 260-270: skip the run of ['*']. *)
Definition star_run (iWild : nat) : result nat :=
  for_ fuel (fun iWild =>
    let iWild := S iWild in
    if length rslcWild <=? iWild then Returned true
    else
      w <- rslcWild @ iWild ;;
      if negb (Z.eqb w star) then Normal (Leave iWild)
      else Normal (Again iWild)) iWild.

(** Lines 236-242: the subject is read before its length is checked. *)
Definition first_candidate (iWild iTame : nat) : result nat :=
  for_ fuel (fun iTame =>
    w <- rslcWild @ iWild ;;
    t <- rslcTame @ iTame ;;
    if negb (Z.eqb w t) then
      let iTame := S iTame in
      if length rslcTame <=? iTame then Returned false
      else Normal (Again iTame)
    else Normal (Leave iTame)) iTame.

(** Lines 278-285. *)
Definition next_candidate (iWild iTame : nat) : result nat :=
  for_ fuel (fun iTame =>
    differ <- and_then (length rslcTame >? iTame)
                (w <- rslcWild @ iWild ;;
                 t <- rslcTame @ iTame ;;
                 Normal (negb (Z.eqb w t))) ;;
    if differ then
      let iTame := S iTame in
      if length rslcTame <=? iTame then Returned false
      else Normal (Again iTame)
    else Normal (Leave iTame)) iTame.

(** Lines 305-309: "a fine time for questions". *)
Definition questions (iWildSequence iTameSequence : nat) : result (nat * nat) :=
  for_ fuel (fun '(iWildSequence, iTameSequence) =>
    isq <- and_then (length rslcWild >? iWildSequence)
             (w <- rslcWild @ iWildSequence ;; Normal (Z.eqb w quest)) ;;
    if isq then Normal (Again (S iWildSequence, S iTameSequence))
    else Normal (Leave (iWildSequence, iTameSequence)))
    (iWildSequence, iTameSequence).

(** Lines 314-329: "fall back, but never so far again". *)
Definition fall_back (iWild iTameSequence : nat) : result nat :=
  for_ fuel (fun iTameSequence =>
    let iTameSequence := S iTameSequence in
    if length rslcTame <=? iTameSequence then
      if length rslcWild <=? iWild then Returned true else Returned false
    else
      found <- and_then (length rslcWild >? iWild)
                 (w <- rslcWild @ iWild ;;
                  t <- rslcTame @ iTameSequence ;;
                  Normal (Z.eqb w t)) ;;
      if found then Normal (Leave iTameSequence)
      else Normal (Again iTameSequence)) iTameSequence.

(** Lines 305-331: the whole retry, from the checkpoint to the new cursors. *)
Definition backtrack (iWildSequence iTameSequence : nat) : result cursor :=
  '(iWildSequence, iTameSequence) <- questions iWildSequence iTameSequence ;;
  let iWild := iWildSequence in
  iTameSequence <- fall_back iWild iTameSequence ;;
  let iTame := iTameSequence in
  Normal (iWild, iTame, iWildSequence, iTameSequence).

(** Lines 200-254, one pass. *)
Definition first_loop (c : cursor) : result (step cursor) :=
  let '(iWild, iTame, iWildSequence, iTameSequence) := c in
  if length rslcTame <=? iWild then
    if length rslcWild >? iWild then
      _ <- trailing_stars iWild ;;
      Returned false
    else Returned true
  else if length rslcWild <=? iWild then Returned false
  else
    w <- rslcWild @ iWild ;;
    if Z.eqb w star then
      let iTame := iWild in
      iWild <- star_run iWild ;;
      w <- rslcWild @ iWild ;;
      iTame <- (if negb (Z.eqb w quest) then first_candidate iWild iTame
                else Normal iTame) ;;
      let iWildSequence := iWild in
      let iTameSequence := iTame in
      Normal (Leave (iWild, iTame, iWildSequence, iTameSequence))
    else
      t <- rslcTame @ iWild ;;
      if negb (Z.eqb w t) && negb (Z.eqb w quest) then Returned false
      else Normal (Again (S iWild, iTame, iWildSequence, iTameSequence)).

(** Lines 257-346, one pass. *)
Definition second_loop (c : cursor) : result (step cursor) :=
  let '(iWild, iTame, iWildSequence, iTameSequence) := c in
  wild_again <- and_then (length rslcWild >? iWild)
                  (w <- rslcWild @ iWild ;; Normal (Z.eqb w star)) ;;
  '(iWild, iTame, iWildSequence, iTameSequence) <-
    (if wild_again then
       iWild <- star_run iWild ;;
       if length rslcTame <=? iTame then Returned false
       else
         w <- rslcWild @ iWild ;;
         iTame <- (if negb (Z.eqb w quest) then next_candidate iWild iTame
                   else Normal iTame) ;;
         let iWildSequence := iWild in
         let iTameSequence := iTame in
         Normal (iWild, iTame, iWildSequence, iTameSequence)
     else
       if length rslcTame <=? iTame then
         if length rslcWild <=? iWild then Returned true else Returned false
       else
         mismatch <- or_else (length rslcWild <=? iWild)
                       (w <- rslcWild @ iWild ;;
                        t <- rslcTame @ iTame ;;
                        Normal (negb (Z.eqb w t) && negb (Z.eqb w quest))) ;;
         if mismatch then backtrack iWildSequence iTameSequence
         else Normal (iWild, iTame, iWildSequence, iTameSequence)) ;;
  if length rslcTame <=? iTame then
    if length rslcWild <=? iWild then Returned true else Returned false
  else Normal (Again (S iWild, S iTame, iWildSequence, iTameSequence)).

Definition run : result cursor :=
  c <- for_ fuel first_loop (0, 0, 0, 0) ;;
  for_ fuel second_loop c.

End Body.

Definition FastWildCompareRuneSlices (rslcWild rslcTame : list rune) : result cursor :=
  run (budget rslcWild rslcTame) rslcWild rslcTame.

End Runes.

(** ** The shape the two functions share

    The same loops over any symbol type with a boolean equality and two
    marker values.  [Ascii.run] and [Runes.run] are definitionally its
    instances ([ascii_is_instance], [runes_is_instance]), so each fact
    below is proved once. *)

Module Matcher.

Section Body.
Variable sym : Type.
Variable eqb : sym -> sym -> bool.
Variables star quest : sym.
Variable fuel : nat.
Variables wild tame : list sym.

Definition trailing_stars (iWild : nat) : result nat :=
  for_ fuel (fun iWild =>
    w <- wild @ iWild ;;
    if eqb w star then
      let iWild := S iWild in
      if length wild <=? iWild then Returned true
      else Normal (Again iWild)
    else Normal (Leave iWild)) iWild.

Definition star_run (iWild : nat) : result nat :=
  for_ fuel (fun iWild =>
    let iWild := S iWild in
    if length wild <=? iWild then Returned true
    else
      w <- wild @ iWild ;;
      if negb (eqb w star) then Normal (Leave iWild)
      else Normal (Again iWild)) iWild.

Definition first_candidate (iWild iTame : nat) : result nat :=
  for_ fuel (fun iTame =>
    w <- wild @ iWild ;;
    t <- tame @ iTame ;;
    if negb (eqb w t) then
      let iTame := S iTame in
      if length tame <=? iTame then Returned false
      else Normal (Again iTame)
    else Normal (Leave iTame)) iTame.

Definition next_candidate (iWild iTame : nat) : result nat :=
  for_ fuel (fun iTame =>
    differ <- and_then (length tame >? iTame)
                (w <- wild @ iWild ;;
                 t <- tame @ iTame ;;
                 Normal (negb (eqb w t))) ;;
    if differ then
      let iTame := S iTame in
      if length tame <=? iTame then Returned false
      else Normal (Again iTame)
    else Normal (Leave iTame)) iTame.

Definition questions (iWildSequence iTameSequence : nat) : result (nat * nat) :=
  for_ fuel (fun '(iWildSequence, iTameSequence) =>
    isq <- and_then (length wild >? iWildSequence)
             (w <- wild @ iWildSequence ;; Normal (eqb w quest)) ;;
    if isq then Normal (Again (S iWildSequence, S iTameSequence))
    else Normal (Leave (iWildSequence, iTameSequence)))
    (iWildSequence, iTameSequence).

Definition fall_back (iWild iTameSequence : nat) : result nat :=
  for_ fuel (fun iTameSequence =>
    let iTameSequence := S iTameSequence in
    if length tame <=? iTameSequence then
      if length wild <=? iWild then Returned true else Returned false
    else
      found <- and_then (length wild >? iWild)
                 (w <- wild @ iWild ;;
                  t <- tame @ iTameSequence ;;
                  Normal (eqb w t)) ;;
      if found then Normal (Leave iTameSequence)
      else Normal (Again iTameSequence)) iTameSequence.

Definition backtrack (iWildSequence iTameSequence : nat) : result cursor :=
  '(iWildSequence, iTameSequence) <- questions iWildSequence iTameSequence ;;
  let iWild := iWildSequence in
  iTameSequence <- fall_back iWild iTameSequence ;;
  let iTame := iTameSequence in
  Normal (iWild, iTame, iWildSequence, iTameSequence).

Definition first_loop (c : cursor) : result (step cursor) :=
  let '(iWild, iTame, iWildSequence, iTameSequence) := c in
  if length tame <=? iWild then
    if length wild >? iWild then
      _ <- trailing_stars iWild ;;
      Returned false
    else Returned true
  else if length wild <=? iWild then Returned false
  else
    w <- wild @ iWild ;;
    if eqb w star then
      let iTame := iWild in
      iWild <- star_run iWild ;;
      w <- wild @ iWild ;;
      iTame <- (if negb (eqb w quest) then first_candidate iWild iTame
                else Normal iTame) ;;
      let iWildSequence := iWild in
      let iTameSequence := iTame in
      Normal (Leave (iWild, iTame, iWildSequence, iTameSequence))
    else
      t <- tame @ iWild ;;
      if negb (eqb w t) && negb (eqb w quest) then Returned false
      else Normal (Again (S iWild, iTame, iWildSequence, iTameSequence)).

Definition second_loop (c : cursor) : result (step cursor) :=
  let '(iWild, iTame, iWildSequence, iTameSequence) := c in
  wild_again <- and_then (length wild >? iWild)
                  (w <- wild @ iWild ;; Normal (eqb w star)) ;;
  '(iWild, iTame, iWildSequence, iTameSequence) <-
    (if wild_again then
       iWild <- star_run iWild ;;
       if length tame <=? iTame then Returned false
       else
         w <- wild @ iWild ;;
         iTame <- (if negb (eqb w quest) then next_candidate iWild iTame
                   else Normal iTame) ;;
         let iWildSequence := iWild in
         let iTameSequence := iTame in
         Normal (iWild, iTame, iWildSequence, iTameSequence)
     else
       if length tame <=? iTame then
         if length wild <=? iWild then Returned true else Returned false
       else
         mismatch <- or_else (length wild <=? iWild)
                       (w <- wild @ iWild ;;
                        t <- tame @ iTame ;;
                        Normal (negb (eqb w t) && negb (eqb w quest))) ;;
         if mismatch then backtrack iWildSequence iTameSequence
         else Normal (iWild, iTame, iWildSequence, iTameSequence)) ;;
  if length tame <=? iTame then
    if length wild <=? iWild then Returned true else Returned false
  else Normal (Again (S iWild, S iTame, iWildSequence, iTameSequence)).

Definition run : result cursor :=
  c <- for_ fuel first_loop (0, 0, 0, 0) ;;
  for_ fuel second_loop c.

End Body.

End Matcher.

(** ** Reference semantics of patterns

    These definitions follow the words of the specification, not the
    source: they are what the matchers are compared with. *)

Module Pattern.

Section Reference.
Variable sym : Type.
Variable eqb : sym -> sym -> bool.
Variables star quest : sym.

(** The glob relation in the spec's words: a literal matches the equal
    symbol, [quest] exactly one symbol of any value, [star] any block of
    symbols, for some split of the subject, and both sequences end
    together. *)
Inductive Matches : list sym -> list sym -> Prop :=
| Matches_nil : Matches [] []
| Matches_literal c p s :
    c <> star -> c <> quest -> Matches p s -> Matches (c :: p) (c :: s)
| Matches_quest d p s :
    Matches p s -> Matches (quest :: p) (d :: s)
| Matches_star p s1 s2 :
    Matches p s2 -> Matches (star :: p) (s1 ++ s2).

(** Exhaustive search with backtracking: at a [star], try every split of
    the subject in turn. *)
Fixpoint glob (p s : list sym) : bool :=
  match p with
  | [] => match s with [] => true | _ :: _ => false end
  | c :: p' =>
      if eqb c star then
        (fix try (s : list sym) : bool :=
           glob p' s || match s with [] => false | _ :: s' => try s' end) s
      else
        match s with
        | [] => false
        | d :: s' => (eqb c quest || eqb c d) && glob p' s'
        end
  end.

(** [collapseStarRuns]: every maximal run of [star] becomes one [star]. *)
Fixpoint collapseStarRuns (p : list sym) : list sym :=
  match p with
  | [] => []
  | c :: p' =>
      if eqb c star then
        match p' with
        | [] => [c]
        | c' :: _ => if eqb c' star then collapseStarRuns p'
                     else c :: collapseStarRuns p'
        end
      else c :: collapseStarRuns p'
  end.

(** [respects_literals f p s]: relabelling the subject [s] by [f] keeps the
    outcome of every equality test between a literal of the pattern [p] and
    a symbol of [s]. *)
Definition respects_literals (f : sym -> sym) (p s : list sym) : bool :=
  forallb (fun d =>
    forallb (fun c =>
      eqb c star || eqb c quest || Bool.eqb (eqb c (f d)) (eqb c d)) p) s.

(** [smatch c d]: the pattern symbol [c], not a [star], accepts [d]. *)
Definition smatch (c d : sym) : bool :=
  negb (eqb c star) && (eqb c quest || eqb c d).

(** A block of the pattern without [star] accepts a block of the subject,
    symbol by symbol. *)
Definition aligned (q a : list sym) : Prop :=
  Forall2 (fun c d => smatch c d = true) q a.

(** The symbols a pattern needs: every one but the stars. *)
Definition need (p : list sym) : nat :=
  length (filter (fun c => negb (eqb c star)) p).

End Reference.

End Pattern.

(** The rune slice of a string of single-byte (ASCII) symbols: each byte
    below 128 is the rune of the same value.  Other bytes start or
    continue a multi-byte encoding, which is the decoder's business. *)
Definition rune_of_byte (b : byte) : Runes.rune := Z.of_N (Byte.to_N b).

Definition is_ascii (b : byte) : bool := (Byte.to_N b <? 128)%N.

Fixpoint runes_of_ascii (s : list byte) : option (list Runes.rune) :=
  match s with
  | [] => Some []
  | b :: s' =>
      if is_ascii b then
        match runes_of_ascii s' with
        | Some r => Some (rune_of_byte b :: r)
        | None => None
        end
      else None
  end.

(** A Go string literal of ASCII characters, as its bytes and as its
    runes. *)
Definition go_string (s : String.string) : list byte :=
  String.list_byte_of_string s.

Definition go_runes (s : String.string) : list Runes.rune :=
  map rune_of_byte (go_string s).

(** The reference semantics at the two symbol types. *)
Definition ascii_matches : list byte -> list byte -> Prop :=
  Pattern.Matches Ascii.star Ascii.quest.

Definition ascii_glob : list byte -> list byte -> bool :=
  Pattern.glob Byte.eqb Ascii.star Ascii.quest.

Definition rune_matches : list Runes.rune -> list Runes.rune -> Prop :=
  Pattern.Matches Runes.star Runes.quest.

Definition rune_glob : list Runes.rune -> list Runes.rune -> bool :=
  Pattern.glob Z.eqb Runes.star Runes.quest.

(** No index was out of range on the way to this outcome. *)
Definition in_bounds {A : Type} (r : result A) : bool :=
  match r with
  | Panicked => false
  | _ => true
  end.


(** Pattern symbols that are no markers, and the marker ['*']. *)
Definition ascii_literal (c : byte) : bool :=
  negb (Byte.eqb c Ascii.star) && negb (Byte.eqb c Ascii.quest).

Definition rune_literal (c : Runes.rune) : bool :=
  negb (Z.eqb c Runes.star) && negb (Z.eqb c Runes.quest).

Definition ascii_is_star (c : byte) : bool := Byte.eqb c Ascii.star.

Definition rune_is_star (c : Runes.rune) : bool := Z.eqb c Runes.star.

(** ** The test harness (fastwildcompare.go, lines 394-863)

    [test] and the three suites of ASCII cases.  The clock readings of
    [test] and the two accumulators they are added to are real time and
    are not modelled; nothing here reads them.  [fmt.Println] is modelled
    by its line. *)

Module Harness.

(** Package-scope testcase selection flags (lines 394-400). *)
Definition bComparePerformance : bool := false.
Definition bTestUtf8 : bool := true.

(** The value of a call expression is what the callee returned.  A Go
    function with a result cannot end without [return]; a model run that
    did would only have run out of budget. *)
Definition call {A : Type} (r : result A) : result bool :=
  match r with
  | Returned b => Normal b
  | Normal _ => Exhausted
  | Panicked => Panicked
  | Exhausted => Exhausted
  end.

(** [for iReps > 0 { iReps--; body }]: the body runs [iReps] times. *)
Definition countdown {S : Type} (iReps : N) (body : S -> result S) (s : S)
  : result S :=
  N.iter iReps (fun r => s <- r ;; body s) (Normal s).

Section Environment.
(** [bCompareCaseInsensitive] is read by [test] and the suites; the file
    declares [bTestCaseInsensitive] and no constant of this name. *)
Variable bCompareCaseInsensitive : bool.
(** Go's conversion [[]rune(s)] and [strings.ToLower]. *)
Variable rune_slice : list byte -> list Runes.rune.
Variable ToLower : list byte -> list byte.

(** Lines 411-469.  [bTestingUtf8] is a package variable that the suites
    set before their cases; it is passed in. *)
Definition test (bTestingUtf8 : bool) (tame_string wild_string : list byte)
           (bExpectedResult : bool) : result unit :=
  let bPassed := true in
  bPassed <-
    (if bComparePerformance then
       bPassed <-
         (if negb bTestingUtf8 then
            r <- call (Ascii.FastWildCompareAscii wild_string tame_string) ;;
            Normal (if negb (Bool.eqb bExpectedResult r) then false
                    else bPassed)
          else Normal bPassed) ;;
       r <- call (Runes.FastWildCompareRuneSlices
                    (rune_slice wild_string) (rune_slice tame_string)) ;;
       Normal (if negb (Bool.eqb bExpectedResult r) then false else bPassed)
     else if bTestUtf8 && bCompareCaseInsensitive then
       r <- call (Runes.FastWildCompareRuneSlices
                    (rune_slice (ToLower wild_string))
                    (rune_slice (ToLower tame_string))) ;;
       Normal (if negb (Bool.eqb bExpectedResult r) then false else bPassed)
     else
       r <- call (Ascii.FastWildCompareAscii wild_string tame_string) ;;
       Normal (if negb (Bool.eqb bExpectedResult r) then false else bPassed)) ;;
  Returned bPassed.

(** [test(tame, wild, expected)] on two string literals. *)
Definition test_strings (bTestingUtf8 : bool) (tame wild : String.string)
           (bExpectedResult : bool) : result bool :=
  call (test bTestingUtf8 (go_string tame) (go_string wild) bExpectedResult).

(** Lines 472-625. *)
Definition testWild : result string :=
  let bAllPassed := true in
  let bTestingUtf8 := false in
  let iReps := (if bComparePerformance then 1000000 else 1)%N in
  bAllPassed <-
    countdown iReps (fun bAllPassed =>
      bAllPassed <- and_then bAllPassed
        (test_strings bTestingUtf8 "Hi"
           "Hi*" true) ;;
      bAllPassed <- and_then bAllPassed
        (test_strings bTestingUtf8 "abc"
           "ab*d" false) ;;
      bAllPassed <- and_then bAllPassed
        (test_strings bTestingUtf8 "abcccd"
           "*ccd" true) ;;
      bAllPassed <- and_then bAllPassed
        (test_strings bTestingUtf8 "mississipissippi"
           "*issip*ss*" true) ;;
      bAllPassed <- and_then bAllPassed
        (test_strings bTestingUtf8 "xxxx*zzzzzzzzy*f"
           "xxxx*zzy*fffff" false) ;;
      bAllPassed <- and_then bAllPassed
        (test_strings bTestingUtf8 "xxxx*zzzzzzzzy*f"
           "xxx*zzy*f" true) ;;
      bAllPassed <- and_then bAllPassed
        (test_strings bTestingUtf8 "xxxxzzzzzzzzyf"
           "xxxx*zzy*fffff" false) ;;
      bAllPassed <- and_then bAllPassed
        (test_strings bTestingUtf8 "xxxxzzzzzzzzyf"
           "xxxx*zzy*f" true) ;;
      bAllPassed <- and_then bAllPassed
        (test_strings bTestingUtf8 "xyxyxyzyxyz"
           "xy*z*xyz" true) ;;
      bAllPassed <- and_then bAllPassed
        (test_strings bTestingUtf8 "mississippi"
           "*sip*" true) ;;
      bAllPassed <- and_then bAllPassed
        (test_strings bTestingUtf8 "xyxyxyxyz"
           "xy*xyz" true) ;;
      bAllPassed <- and_then bAllPassed
        (test_strings bTestingUtf8 "mississippi"
           "mi*sip*" true) ;;
      bAllPassed <- and_then bAllPassed
        (test_strings bTestingUtf8 "ababac"
           "*abac*" true) ;;
      bAllPassed <- and_then bAllPassed
        (test_strings bTestingUtf8 "ababac"
           "*abac*" true) ;;
      bAllPassed <- and_then bAllPassed
        (test_strings bTestingUtf8 "aaazz"
           "a*zz*" true) ;;
      bAllPassed <- and_then bAllPassed
        (test_strings bTestingUtf8 "a12b12"
           "*12*23" false) ;;
      bAllPassed <- and_then bAllPassed
        (test_strings bTestingUtf8 "a12b12"
           "a12b" false) ;;
      bAllPassed <- and_then bAllPassed
        (test_strings bTestingUtf8 "a12b12"
           "*12*12*" true) ;;
      bAllPassed <-
        (if negb bComparePerformance then
           bAllPassed <- and_then bAllPassed
             (test_strings bTestingUtf8 "caaab"
                "*a?b" true) ;;
           bAllPassed <- and_then bAllPassed
             (test_strings bTestingUtf8 "aaaaa"
                "*aa?" true) ;;
           Normal bAllPassed
         else Normal bAllPassed) ;;
      bAllPassed <- and_then bAllPassed
        (test_strings bTestingUtf8 "*"
           "*" true) ;;
      bAllPassed <- and_then bAllPassed
        (test_strings bTestingUtf8 "a*abab"
           "a*b" true) ;;
      bAllPassed <- and_then bAllPassed
        (test_strings bTestingUtf8 "a*r"
           "a*" true) ;;
      bAllPassed <- and_then bAllPassed
        (test_strings bTestingUtf8 "a*ar"
           "a*aar" false) ;;
      bAllPassed <- and_then bAllPassed
        (test_strings bTestingUtf8 "XYXYXYZYXYz"
           "XY*Z*XYz" true) ;;
      bAllPassed <- and_then bAllPassed
        (test_strings bTestingUtf8 "missisSIPpi"
           "*SIP*" true) ;;
      bAllPassed <- and_then bAllPassed
        (test_strings bTestingUtf8 "mississipPI"
           "*issip*PI" true) ;;
      bAllPassed <- and_then bAllPassed
        (test_strings bTestingUtf8 "xyxyxyxyz"
           "xy*xyz" true) ;;
      bAllPassed <- and_then bAllPassed
        (test_strings bTestingUtf8 "miSsissippi"
           "mi*sip*" true) ;;
      bAllPassed <- and_then bAllPassed
        (test_strings bTestingUtf8 "abAbac"
           "*Abac*" true) ;;
      bAllPassed <- and_then bAllPassed
        (test_strings bTestingUtf8 "abAbac"
           "*Abac*" true) ;;
      bAllPassed <- and_then bAllPassed
        (test_strings bTestingUtf8 "aAazz"
           "a*zz*" true) ;;
      bAllPassed <- and_then bAllPassed
        (test_strings bTestingUtf8 "A12b12"
           "*12*23" false) ;;
      bAllPassed <- and_then bAllPassed
        (test_strings bTestingUtf8 "a12B12"
           "*12*12*" true) ;;
      bAllPassed <- and_then bAllPassed
        (test_strings bTestingUtf8 "oWn"
           "*oWn*" true) ;;
      bAllPassed <- and_then bAllPassed
        (test_strings bTestingUtf8 "bLah"
           "bLah" true) ;;
      bAllPassed <- and_then bAllPassed
        (test_strings bTestingUtf8 "a"
           "*?" true) ;;
      bAllPassed <- and_then bAllPassed
        (test_strings bTestingUtf8 "ab"
           "*?" true) ;;
      bAllPassed <- and_then bAllPassed
        (test_strings bTestingUtf8 "abc"
           "*?" true) ;;
      bAllPassed <- and_then bAllPassed
        (test_strings bTestingUtf8 "a"
           "??" false) ;;
      bAllPassed <- and_then bAllPassed
        (test_strings bTestingUtf8 "ab"
           "?*?" true) ;;
      bAllPassed <- and_then bAllPassed
        (test_strings bTestingUtf8 "ab"
           "*?*?*" true) ;;
      bAllPassed <- and_then bAllPassed
        (test_strings bTestingUtf8 "abc"
           "?**?*?" true) ;;
      bAllPassed <- and_then bAllPassed
        (test_strings bTestingUtf8 "abc"
           "?**?*&?" false) ;;
      bAllPassed <- and_then bAllPassed
        (test_strings bTestingUtf8 "abcd"
           "?b*??" true) ;;
      bAllPassed <- and_then bAllPassed
        (test_strings bTestingUtf8 "abcd"
           "?a*??" false) ;;
      bAllPassed <- and_then bAllPassed
        (test_strings bTestingUtf8 "abcd"
           "?**?c?" true) ;;
      bAllPassed <- and_then bAllPassed
        (test_strings bTestingUtf8 "abcd"
           "?**?d?" false) ;;
      bAllPassed <- and_then bAllPassed
        (test_strings bTestingUtf8 "abcde"
           "?*b*?*d*?" true) ;;
      bAllPassed <- and_then bAllPassed
        (test_strings bTestingUtf8 "bLah"
           "bL?h" true) ;;
      bAllPassed <- and_then bAllPassed
        (test_strings bTestingUtf8 "bLaaa"
           "bLa?" false) ;;
      bAllPassed <- and_then bAllPassed
        (test_strings bTestingUtf8 "bLah"
           "bLa?" true) ;;
      bAllPassed <- and_then bAllPassed
        (test_strings bTestingUtf8 "bLaH"
           "?Lah" bCompareCaseInsensitive) ;;
      bAllPassed <- and_then bAllPassed
        (test_strings bTestingUtf8 "bLaH"
           "?LaH" true) ;;
      bAllPassed <- and_then bAllPassed
        (test_strings bTestingUtf8 "aaaaaaaaaaaaaaaaaaaaaaaaaaaaaaaaaaaaaaaaaaaaaaaaaaaaaaaaaaaaaaaaaaaaaaaaaaaaaaaaaaaaaaaaaab"
           "a*a*a*a*a*a*aa*aaa*a*a*b" true) ;;
      bAllPassed <- and_then bAllPassed
        (test_strings bTestingUtf8 "abababababababababababababababababababaacacacacacacacadaeafagahaiajakalaaaaaaaaaaaaaaaaaffafagaagggagaaaaaaaab"
           "*a*b*ba*ca*a*aa*aaa*fa*ga*b*" true) ;;
      bAllPassed <- and_then bAllPassed
        (test_strings bTestingUtf8 "abababababababababababababababababababaacacacacacacacadaeafagahaiajakalaaaaaaaaaaaaaaaaaffafagaagggagaaaaaaaab"
           "*a*b*ba*ca*a*x*aaa*fa*ga*b*" false) ;;
      bAllPassed <- and_then bAllPassed
        (test_strings bTestingUtf8 "abababababababababababababababababababaacacacacacacacadaeafagahaiajakalaaaaaaaaaaaaaaaaaffafagaagggagaaaaaaaab"
           "*a*b*ba*ca*aaaa*fa*ga*gggg*b*" false) ;;
      bAllPassed <- and_then bAllPassed
        (test_strings bTestingUtf8 "abababababababababababababababababababaacacacacacacacadaeafagahaiajakalaaaaaaaaaaaaaaaaaffafagaagggagaaaaaaaab"
           "*a*b*ba*ca*aaaa*fa*ga*ggg*b*" true) ;;
      bAllPassed <- and_then bAllPassed
        (test_strings bTestingUtf8 "aaabbaabbaab"
           "*aabbaa*a*" true) ;;
      bAllPassed <- and_then bAllPassed
        (test_strings bTestingUtf8 "a*a*a*a*a*a*a*a*a*a*a*a*a*a*a*a*a*"
           "a*a*a*a*a*a*a*a*a*a*a*a*a*a*a*a*a*" true) ;;
      bAllPassed <- and_then bAllPassed
        (test_strings bTestingUtf8 "aaaaaaaaaaaaaaaaa"
           "*a*a*a*a*a*a*a*a*a*a*a*a*a*a*a*a*a*" true) ;;
      bAllPassed <- and_then bAllPassed
        (test_strings bTestingUtf8 "aaaaaaaaaaaaaaaa"
           "*a*a*a*a*a*a*a*a*a*a*a*a*a*a*a*a*a*" false) ;;
      bAllPassed <- and_then bAllPassed
        (test_strings bTestingUtf8 "abc*abcd*abcde*abcdef*abcdefg*abcdefgh*abcdefghi*abcdefghij*abcdefghijk*abcdefghijkl*abcdefghijklm*abcdefghijklmn"
           "abc*abc*abc*abc*abc*abc*abc*abc*abc*abc*abc*abc*abc*abc*abc*abc*a            bc*" false) ;;
      bAllPassed <- and_then bAllPassed
        (test_strings bTestingUtf8 "abc*abcd*abcde*abcdef*abcdefg*abcdefgh*abcdefghi*abcdefghij*abcdefghijk*abcdefghijkl*abcdefghijklm*abcdefghijklmn"
           "abc*abc*abc*abc*abc*abc*abc*abc*abc*abc*abc*abc*" true) ;;
      bAllPassed <- and_then bAllPassed
        (test_strings bTestingUtf8 "abc*abcd*abcd*abc*abcd"
           "abc*abc*abc*abc*abc" false) ;;
      bAllPassed <- and_then bAllPassed
        (test_strings bTestingUtf8 "abc*abcd*abcd*abc*abcd*abcd*abc*abcd*abc*abc*abcd"
           "abc*abc*abc*abc*abc*abc*abc*abc*abc*abc*abcd" true) ;;
      bAllPassed <- and_then bAllPassed
        (test_strings bTestingUtf8 "abc"
           "********a********b********c********" true) ;;
      bAllPassed <- and_then bAllPassed
        (test_strings bTestingUtf8 "********a********b********c********"
           "abc" false) ;;
      bAllPassed <- and_then bAllPassed
        (test_strings bTestingUtf8 "abc"
           "********a********b********b********" false) ;;
      bAllPassed <- and_then bAllPassed
        (test_strings bTestingUtf8 "*abc*"
           "***a*b*c***" true) ;;
      bAllPassed <-
        (if bCompareCaseInsensitive then
           bAllPassed <- and_then bAllPassed
             (test_strings bTestingUtf8 "mississippi"
                "*issip*PI" true) ;;
           bAllPassed <- and_then bAllPassed
             (test_strings bTestingUtf8 "miSsissippi"
                "mi*Sip*" true) ;;
           bAllPassed <- and_then bAllPassed
             (test_strings bTestingUtf8 "bLah"
                "bLaH" true) ;;
           Normal bAllPassed
         else Normal bAllPassed) ;;
      bAllPassed <- and_then bAllPassed
        (test_strings bTestingUtf8 ""
           "?" false) ;;
      bAllPassed <- and_then bAllPassed
        (test_strings bTestingUtf8 ""
           "*?" false) ;;
      bAllPassed <- and_then bAllPassed
        (test_strings bTestingUtf8 ""
           "" true) ;;
      bAllPassed <- and_then bAllPassed
        (test_strings bTestingUtf8 "a"
           "" false) ;;
      Normal bAllPassed) bAllPassed ;;
  if bAllPassed then Normal "Passed wildcard tests"%string
  else Normal "Failed wildcard tests"%string.

(** Lines 628-754. *)
Definition testTame : result string :=
  let bAllPassed := true in
  let bTestingUtf8 := false in
  let iReps := (if bComparePerformance then 1000000 else 1)%N in
  bAllPassed <-
    countdown iReps (fun bAllPassed =>
      bAllPassed <- and_then bAllPassed
        (test_strings bTestingUtf8 "abc"
           "abd" false) ;;
      bAllPassed <- and_then bAllPassed
        (test_strings bTestingUtf8 "abcccd"
           "abcccd" true) ;;
      bAllPassed <- and_then bAllPassed
        (test_strings bTestingUtf8 "mississipissippi"
           "mississipissippi" true) ;;
      bAllPassed <- and_then bAllPassed
        (test_strings bTestingUtf8 "xxxxzzzzzzzzyf"
           "xxxxzzzzzzzzyfffff" false) ;;
      bAllPassed <- and_then bAllPassed
        (test_strings bTestingUtf8 "xxxxzzzzzzzzyf"
           "xxxxzzzzzzzzyf" true) ;;
      bAllPassed <- and_then bAllPassed
        (test_strings bTestingUtf8 "xxxxzzzzzzzzyf"
           "xxxxzzy.fffff" false) ;;
      bAllPassed <- and_then bAllPassed
        (test_strings bTestingUtf8 "xxxxzzzzzzzzyf"
           "xxxxzzzzzzzzyf" true) ;;
      bAllPassed <- and_then bAllPassed
        (test_strings bTestingUtf8 "xyxyxyzyxyz"
           "xyxyxyzyxyz" true) ;;
      bAllPassed <- and_then bAllPassed
        (test_strings bTestingUtf8 "mississippi"
           "mississippi" true) ;;
      bAllPassed <- and_then bAllPassed
        (test_strings bTestingUtf8 "xyxyxyxyz"
           "xyxyxyxyz" true) ;;
      bAllPassed <- and_then bAllPassed
        (test_strings bTestingUtf8 "m ississippi"
           "m ississippi" true) ;;
      bAllPassed <- and_then bAllPassed
        (test_strings bTestingUtf8 "ababac"
           "ababac?" false) ;;
      bAllPassed <- and_then bAllPassed
        (test_strings bTestingUtf8 "dababac"
           "ababac" false) ;;
      bAllPassed <- and_then bAllPassed
        (test_strings bTestingUtf8 "aaazz"
           "aaazz" true) ;;
      bAllPassed <- and_then bAllPassed
        (test_strings bTestingUtf8 "a12b12"
           "1212" false) ;;
      bAllPassed <- and_then bAllPassed
        (test_strings bTestingUtf8 "a12b12"
           "a12b" false) ;;
      bAllPassed <- and_then bAllPassed
        (test_strings bTestingUtf8 "a12b12"
           "a12b12" true) ;;
      bAllPassed <- and_then bAllPassed
        (test_strings bTestingUtf8 "n"
           "n" true) ;;
      bAllPassed <- and_then bAllPassed
        (test_strings bTestingUtf8 "aabab"
           "aabab" true) ;;
      bAllPassed <- and_then bAllPassed
        (test_strings bTestingUtf8 "ar"
           "ar" true) ;;
      bAllPassed <- and_then bAllPassed
        (test_strings bTestingUtf8 "aar"
           "aaar" false) ;;
      bAllPassed <- and_then bAllPassed
        (test_strings bTestingUtf8 "XYXYXYZYXYz"
           "XYXYXYZYXYz" true) ;;
      bAllPassed <- and_then bAllPassed
        (test_strings bTestingUtf8 "missisSIPpi"
           "missisSIPpi" true) ;;
      bAllPassed <- and_then bAllPassed
        (test_strings bTestingUtf8 "mississipPI"
           "mississipPI" true) ;;
      bAllPassed <- and_then bAllPassed
        (test_strings bTestingUtf8 "xyxyxyxyz"
           "xyxyxyxyz" true) ;;
      bAllPassed <- and_then bAllPassed
        (test_strings bTestingUtf8 "miSsissippi"
           "miSsissippi" true) ;;
      bAllPassed <-
        (if bCompareCaseInsensitive then
           bAllPassed <- and_then bAllPassed
             (test_strings bTestingUtf8 "miSsissippi"
                "miSsisSippi" true) ;;
           bAllPassed <- and_then bAllPassed
             (test_strings bTestingUtf8 "abAbac"
                "abAbac" true) ;;
           bAllPassed <- and_then bAllPassed
             (test_strings bTestingUtf8 "abAbac"
                "abAbac" true) ;;
           bAllPassed <- and_then bAllPassed
             (test_strings bTestingUtf8 "bLah"
                "bLaH" true) ;;
           Normal bAllPassed
         else Normal bAllPassed) ;;
      bAllPassed <- and_then bAllPassed
        (test_strings bTestingUtf8 "aAazz"
           "aAazz" true) ;;
      bAllPassed <- and_then bAllPassed
        (test_strings bTestingUtf8 "A12b12"
           "A12b123" false) ;;
      bAllPassed <- and_then bAllPassed
        (test_strings bTestingUtf8 "a12B12"
           "a12B12" true) ;;
      bAllPassed <- and_then bAllPassed
        (test_strings bTestingUtf8 "oWn"
           "oWn" true) ;;
      bAllPassed <- and_then bAllPassed
        (test_strings bTestingUtf8 "bLah"
           "bLah" true) ;;
      bAllPassed <- and_then bAllPassed
        (test_strings bTestingUtf8 "a"
           "a" true) ;;
      bAllPassed <- and_then bAllPassed
        (test_strings bTestingUtf8 "ab"
           "a?" true) ;;
      bAllPassed <- and_then bAllPassed
        (test_strings bTestingUtf8 "abc"
           "ab?" true) ;;
      bAllPassed <- and_then bAllPassed
        (test_strings bTestingUtf8 "a"
           "??" false) ;;
      bAllPassed <- and_then bAllPassed
        (test_strings bTestingUtf8 "ab"
           "??" true) ;;
      bAllPassed <- and_then bAllPassed
        (test_strings bTestingUtf8 "abc"
           "???" true) ;;
      bAllPassed <- and_then bAllPassed
        (test_strings bTestingUtf8 "abcd"
           "????" true) ;;
      bAllPassed <- and_then bAllPassed
        (test_strings bTestingUtf8 "abc"
           "????" false) ;;
      bAllPassed <- and_then bAllPassed
        (test_strings bTestingUtf8 "abcd"
           "?b??" true) ;;
      bAllPassed <- and_then bAllPassed
        (test_strings bTestingUtf8 "abcd"
           "?a??" false) ;;
      bAllPassed <- and_then bAllPassed
        (test_strings bTestingUtf8 "abcd"
           "??c?" true) ;;
      bAllPassed <- and_then bAllPassed
        (test_strings bTestingUtf8 "abcd"
           "??d?" false) ;;
      bAllPassed <- and_then bAllPassed
        (test_strings bTestingUtf8 "abcde"
           "?b?d*?" true) ;;
      bAllPassed <- and_then bAllPassed
        (test_strings bTestingUtf8 "aaaaaaaaaaaaaaaaaaaaaaaaaaaaaaaaaaaaaaaaaaaaaaaaaaaaaaaaaaaaaaaaaaaaaaaaaaaaaaaaaaaaaaaaaab"
           "aaaaaaaaaaaaaaaaaaaaaaaaaaaaaaaaaaaaaaaaaaaaaaaaaaaaaaaaaaaaaaaaaaaaaaaaaaaaaaaaaaaaaaaaaab" true) ;;
      bAllPassed <- and_then bAllPassed
        (test_strings bTestingUtf8 "abababababababababababababababababababaacacacacacacacadaeafagahaiajakalaaaaaaaaaaaaaaaaaffafagaagggagaaaaaaaab"
           "abababababababababababababababababababaacacacacacacacadaeafagahaiajakalaaaaaaaaaaaaaaaaaffafagaagggagaaaaaaaab" true) ;;
      bAllPassed <- and_then bAllPassed
        (test_strings bTestingUtf8 "abababababababababababababababababababaacacacacacacacadaeafagahaiajakalaaaaaaaaaaaaaaaaaffafagaagggagaaaaaaaab"
           "abababababababababababababababababababaacacacacacacacadaeafagahaiajaxalaaaaaaaaaaaaaaaaaffafagaagggagaaaaaaaab" false) ;;
      bAllPassed <- and_then bAllPassed
        (test_strings bTestingUtf8 "abababababababababababababababababababaacacacacacacacadaeafagahaiajakalaaaaaaaaaaaaaaaaaffafagaagggagaaaaaaaab"
           "abababababababababababababababababababaacacacacacacacadaeafagahaiajakalaaaaaaaaaaaaaaaaaffafagaggggagaaaaaaaab" false) ;;
      bAllPassed <- and_then bAllPassed
        (test_strings bTestingUtf8 "abababababababababababababababababababaacacacacacacacadaeafagahaiajakalaaaaaaaaaaaaaaaaaffafagaagggagaaaaaaaab"
           "abababababababababababababababababababaacacacacacacacadaeafagahaiajakalaaaaaaaaaaaaaaaaaffafagaagggagaaaaaaaab" true) ;;
      bAllPassed <- and_then bAllPassed
        (test_strings bTestingUtf8 "aaabbaabbaab"
           "aaabbaabbaab" true) ;;
      bAllPassed <- and_then bAllPassed
        (test_strings bTestingUtf8 "aaaaaaaaaaaaaaaaaaaaaaaaaaaaaaaaaa"
           "aaaaaaaaaaaaaaaaaaaaaaaaaaaaaaaaaa" true) ;;
      bAllPassed <- and_then bAllPassed
        (test_strings bTestingUtf8 "aaaaaaaaaaaaaaaaa"
           "aaaaaaaaaaaaaaaaa" true) ;;
      bAllPassed <- and_then bAllPassed
        (test_strings bTestingUtf8 "aaaaaaaaaaaaaaaa"
           "aaaaaaaaaaaaaaaaa" false) ;;
      bAllPassed <- and_then bAllPassed
        (test_strings bTestingUtf8 "abcabcdabcdeabcdefabcdefgabcdefghabcdefghiabcdefghijabcdefghijkabcdefghijklabcdefghijklmabcdefghijklmn"
           "abcabcabcabcabcabcabcabcabcabcabcabcabcabcabcabcabc" false) ;;
      bAllPassed <- and_then bAllPassed
        (test_strings bTestingUtf8 "abcabcdabcdeabcdefabcdefgabcdefghabcdefghiabcdefghijabcdefghijkabcdefghijklabcdefghijklmabcdefghijklmn"
           "abcabcdabcdeabcdefabcdefgabcdefghabcdefghiabcdefghijabcdefghijkabcdefghijklabcdefghijklmabcdefghijklmn" true) ;;
      bAllPassed <- and_then bAllPassed
        (test_strings bTestingUtf8 "abcabcdabcdabcabcd"
           "abcabc?abcabcabc" false) ;;
      bAllPassed <- and_then bAllPassed
        (test_strings bTestingUtf8 "abcabcdabcdabcabcdabcdabcabcdabcabcabcd"
           "abcabc?abc?abcabc?abc?abc?bc?abc?bc?bcd" true) ;;
      bAllPassed <- and_then bAllPassed
        (test_strings bTestingUtf8 "?abc?"
           "?abc?" true) ;;
      Normal bAllPassed) bAllPassed ;;
  if bAllPassed then Normal "Passed tame string tests"%string
  else Normal "Failed tame string tests"%string.

(** Lines 757-863. *)
Definition testEmpty : result string :=
  let bAllPassed := true in
  let bTestingUtf8 := false in
  let iReps := (if bComparePerformance then 1000000 else 1)%N in
  bAllPassed <-
    countdown iReps (fun bAllPassed =>
      bAllPassed <- and_then bAllPassed
        (test_strings bTestingUtf8 ""
           "abd" false) ;;
      bAllPassed <- and_then bAllPassed
        (test_strings bTestingUtf8 ""
           "abcccd" false) ;;
      bAllPassed <- and_then bAllPassed
        (test_strings bTestingUtf8 ""
           "mississipissippi" false) ;;
      bAllPassed <- and_then bAllPassed
        (test_strings bTestingUtf8 ""
           "xxxxzzzzzzzzyfffff" false) ;;
      bAllPassed <- and_then bAllPassed
        (test_strings bTestingUtf8 ""
           "xxxxzzzzzzzzyf" false) ;;
      bAllPassed <- and_then bAllPassed
        (test_strings bTestingUtf8 ""
           "xxxxzzy.fffff" false) ;;
      bAllPassed <- and_then bAllPassed
        (test_strings bTestingUtf8 ""
           "xxxxzzzzzzzzyf" false) ;;
      bAllPassed <- and_then bAllPassed
        (test_strings bTestingUtf8 ""
           "xyxyxyzyxyz" false) ;;
      bAllPassed <- and_then bAllPassed
        (test_strings bTestingUtf8 ""
           "mississippi" false) ;;
      bAllPassed <- and_then bAllPassed
        (test_strings bTestingUtf8 ""
           "xyxyxyxyz" false) ;;
      bAllPassed <- and_then bAllPassed
        (test_strings bTestingUtf8 ""
           "m ississippi" false) ;;
      bAllPassed <- and_then bAllPassed
        (test_strings bTestingUtf8 ""
           "ababac*" false) ;;
      bAllPassed <- and_then bAllPassed
        (test_strings bTestingUtf8 ""
           "ababac" false) ;;
      bAllPassed <- and_then bAllPassed
        (test_strings bTestingUtf8 ""
           "aaazz" false) ;;
      bAllPassed <- and_then bAllPassed
        (test_strings bTestingUtf8 ""
           "1212" false) ;;
      bAllPassed <- and_then bAllPassed
        (test_strings bTestingUtf8 ""
           "a12b" false) ;;
      bAllPassed <- and_then bAllPassed
        (test_strings bTestingUtf8 ""
           "a12b12" false) ;;
      bAllPassed <- and_then bAllPassed
        (test_strings bTestingUtf8 ""
           "n" false) ;;
      bAllPassed <- and_then bAllPassed
        (test_strings bTestingUtf8 ""
           "aabab" false) ;;
      bAllPassed <- and_then bAllPassed
        (test_strings bTestingUtf8 ""
           "ar" false) ;;
      bAllPassed <- and_then bAllPassed
        (test_strings bTestingUtf8 ""
           "aaar" false) ;;
      bAllPassed <- and_then bAllPassed
        (test_strings bTestingUtf8 ""
           "XYXYXYZYXYz" false) ;;
      bAllPassed <- and_then bAllPassed
        (test_strings bTestingUtf8 ""
           "missisSIPpi" false) ;;
      bAllPassed <- and_then bAllPassed
        (test_strings bTestingUtf8 ""
           "mississipPI" false) ;;
      bAllPassed <- and_then bAllPassed
        (test_strings bTestingUtf8 ""
           "xyxyxyxyz" false) ;;
      bAllPassed <- and_then bAllPassed
        (test_strings bTestingUtf8 ""
           "miSsissippi" false) ;;
      bAllPassed <- and_then bAllPassed
        (test_strings bTestingUtf8 ""
           "miSsisSippi" false) ;;
      bAllPassed <- and_then bAllPassed
        (test_strings bTestingUtf8 ""
           "abAbac" false) ;;
      bAllPassed <- and_then bAllPassed
        (test_strings bTestingUtf8 ""
           "abAbac" false) ;;
      bAllPassed <- and_then bAllPassed
        (test_strings bTestingUtf8 ""
           "aAazz" false) ;;
      bAllPassed <- and_then bAllPassed
        (test_strings bTestingUtf8 ""
           "A12b123" false) ;;
      bAllPassed <- and_then bAllPassed
        (test_strings bTestingUtf8 ""
           "a12B12" false) ;;
      bAllPassed <- and_then bAllPassed
        (test_strings bTestingUtf8 ""
           "oWn" false) ;;
      bAllPassed <- and_then bAllPassed
        (test_strings bTestingUtf8 ""
           "bLah" false) ;;
      bAllPassed <- and_then bAllPassed
        (test_strings bTestingUtf8 ""
           "bLaH" false) ;;
      bAllPassed <- and_then bAllPassed
        (test_strings bTestingUtf8 ""
           "" true) ;;
      bAllPassed <- and_then bAllPassed
        (test_strings bTestingUtf8 "abc"
           "" false) ;;
      bAllPassed <- and_then bAllPassed
        (test_strings bTestingUtf8 "abcccd"
           "" false) ;;
      bAllPassed <- and_then bAllPassed
        (test_strings bTestingUtf8 "mississipissippi"
           "" false) ;;
      bAllPassed <- and_then bAllPassed
        (test_strings bTestingUtf8 "xxxxzzzzzzzzyf"
           "" false) ;;
      bAllPassed <- and_then bAllPassed
        (test_strings bTestingUtf8 "xxxxzzzzzzzzyf"
           "" false) ;;
      bAllPassed <- and_then bAllPassed
        (test_strings bTestingUtf8 "xxxxzzzzzzzzyf"
           "" false) ;;
      bAllPassed <- and_then bAllPassed
        (test_strings bTestingUtf8 "xxxxzzzzzzzzyf"
           "" false) ;;
      bAllPassed <- and_then bAllPassed
        (test_strings bTestingUtf8 "xyxyxyzyxyz"
           "" false) ;;
      bAllPassed <- and_then bAllPassed
        (test_strings bTestingUtf8 "mississippi"
           "" false) ;;
      bAllPassed <- and_then bAllPassed
        (test_strings bTestingUtf8 "xyxyxyxyz"
           "" false) ;;
      bAllPassed <- and_then bAllPassed
        (test_strings bTestingUtf8 "m ississippi"
           "" false) ;;
      bAllPassed <- and_then bAllPassed
        (test_strings bTestingUtf8 "ababac"
           "" false) ;;
      bAllPassed <- and_then bAllPassed
        (test_strings bTestingUtf8 "dababac"
           "" false) ;;
      bAllPassed <- and_then bAllPassed
        (test_strings bTestingUtf8 "aaazz"
           "" false) ;;
      bAllPassed <- and_then bAllPassed
        (test_strings bTestingUtf8 "a12b12"
           "" false) ;;
      bAllPassed <- and_then bAllPassed
        (test_strings bTestingUtf8 "a12b12"
           "" false) ;;
      bAllPassed <- and_then bAllPassed
        (test_strings bTestingUtf8 "a12b12"
           "" false) ;;
      bAllPassed <- and_then bAllPassed
        (test_strings bTestingUtf8 "n"
           "" false) ;;
      bAllPassed <- and_then bAllPassed
        (test_strings bTestingUtf8 "aabab"
           "" false) ;;
      bAllPassed <- and_then bAllPassed
        (test_strings bTestingUtf8 "ar"
           "" false) ;;
      bAllPassed <- and_then bAllPassed
        (test_strings bTestingUtf8 "aar"
           "" false) ;;
      bAllPassed <- and_then bAllPassed
        (test_strings bTestingUtf8 "XYXYXYZYXYz"
           "" false) ;;
      bAllPassed <- and_then bAllPassed
        (test_strings bTestingUtf8 "missisSIPpi"
           "" false) ;;
      bAllPassed <- and_then bAllPassed
        (test_strings bTestingUtf8 "mississipPI"
           "" false) ;;
      bAllPassed <- and_then bAllPassed
        (test_strings bTestingUtf8 "xyxyxyxyz"
           "" false) ;;
      bAllPassed <- and_then bAllPassed
        (test_strings bTestingUtf8 "miSsissippi"
           "" false) ;;
      bAllPassed <- and_then bAllPassed
        (test_strings bTestingUtf8 "miSsissippi"
           "" false) ;;
      bAllPassed <- and_then bAllPassed
        (test_strings bTestingUtf8 "abAbac"
           "" false) ;;
      bAllPassed <- and_then bAllPassed
        (test_strings bTestingUtf8 "abAbac"
           "" false) ;;
      bAllPassed <- and_then bAllPassed
        (test_strings bTestingUtf8 "aAazz"
           "" false) ;;
      bAllPassed <- and_then bAllPassed
        (test_strings bTestingUtf8 "A12b12"
           "" false) ;;
      bAllPassed <- and_then bAllPassed
        (test_strings bTestingUtf8 "a12B12"
           "" false) ;;
      bAllPassed <- and_then bAllPassed
        (test_strings bTestingUtf8 "oWn"
           "" false) ;;
      bAllPassed <- and_then bAllPassed
        (test_strings bTestingUtf8 "bLah"
           "" false) ;;
      bAllPassed <- and_then bAllPassed
        (test_strings bTestingUtf8 "bLah"
           "" false) ;;
      Normal bAllPassed) bAllPassed ;;
  if bAllPassed then Normal "Passed empty string tests"%string
  else Normal "Failed empty string tests"%string.

End Environment.

End Harness.

(** ** Specifications of blocks

    [wp short r Q R]: the block ended normally in a state of [Q], or
    returned a value of [R]; it did not panic, and it ran out of budget
    only if [short] holds (the budget is below what the input needs). *)
Definition wp (short : Prop) {A : Type} (r : result A)
           (Q : A -> Prop) (R : bool -> Prop) : Prop :=
  match r with
  | Normal a => Q a
  | Returned b => R b
  | Panicked => False
  | Exhausted => short
  end.

(** ** The two source functions are instances of the shared shape *)

Lemma ascii_is_instance fuel strWild strTame :
  Ascii.run fuel strWild strTame =
  Matcher.run Byte.eqb Ascii.star Ascii.quest fuel strWild strTame.
Proof. reflexivity. Qed.

Lemma runes_is_instance fuel rslcWild rslcTame :
  Runes.run fuel rslcWild rslcTame =
  Matcher.run Z.eqb Runes.star Runes.quest fuel rslcWild rslcTame.
Proof. reflexivity. Qed.

(** ** A small program logic for [result] and [for_] *)

Section Logic.
Variable short : Prop.
Local Abbreviation wp := (wp short).

Lemma wp_bind {A B : Type} (m : result A) (k : A -> result B) Q R :
  wp m (fun a => wp (k a) Q R) R -> wp (bind m k) Q R.
Proof. destruct m; simpl; auto. Qed.

Lemma wp_mono {A : Type} (r : result A) (Q Q' : A -> Prop) (R R' : bool -> Prop) :
  (forall a, Q a -> Q' a) -> (forall b, R b -> R' b) ->
  wp r Q R -> wp r Q' R'.
Proof. destruct r; simpl; auto. Qed.

(** The loop rule: an invariant kept by every pass that falls through, and
    a variant that the pass decreases. *)
Lemma wp_for {S : Type} (Inv : S -> Prop) (mu : S -> nat)
      (body : S -> result (step S)) (Q : S -> Prop) (R : bool -> Prop) :
  (forall s, Inv s ->
     wp (body s)
        (fun st => match st with
                   | Again s' => Inv s' /\ mu s' < mu s
                   | Leave s' => Q s'
                   end) R) ->
  forall n s, Inv s -> (mu s < n \/ short) -> wp (for_ n body s) Q R.
Proof.
  intros Hbody n; induction n as [|n IH]; intros s Hs Hn; simpl.
  - destruct Hn as [Hn|Hn]; [lia | exact Hn].
  - specialize (Hbody s Hs).
    destruct (body s) as [[s'|s']| | |]; simpl in *; auto.
    destruct Hbody as [Hi Hm]. apply IH; auto.
    destruct Hn as [Hn|Hn]; [left; lia | right; exact Hn].
Qed.

End Logic.

(** What a loop that ends normally has established, whatever its budget. *)
Lemma for_leaves {S : Type} (Inv Q : S -> Prop) (body : S -> result (step S)) :
  (forall s s', Inv s -> body s = Normal (Again s') -> Inv s') ->
  (forall s s', Inv s -> body s = Normal (Leave s') -> Q s') ->
  forall n s s', Inv s -> for_ n body s = Normal s' -> Q s'.
Proof.
  intros Hagain Hleave n; induction n as [|n IH]; intros s s' Hs; simpl.
  - discriminate.
  - destruct (body s) as [[s1|s1]| | |] eqn:E; try discriminate.
    + apply IH. eapply Hagain; eauto.
    + intros H; injection H as <-. eapply Hleave; eauto.
Qed.

(** ** Facts of lists and indices *)

Lemma skipn_nth {A : Type} (l : list A) i c :
  nth_error l i = Some c -> skipn i l = c :: skipn (S i) l.
Proof.
  revert l; induction i as [|i IH]; intros [|x l]; simpl; try discriminate.
  - intros H; injection H as ->; reflexivity.
  - intros H. rewrite (IH _ H). reflexivity.
Qed.

Lemma index_in {A : Type} (l : list A) i :
  i < length l -> exists c, nth_error l i = Some c /\ l @ i = Normal c.
Proof.
  intros H. unfold index. destruct (nth_error l i) as [c|] eqn:E.
  - exists c; auto.
  - apply nth_error_None in E. lia.
Qed.

Lemma index_normal {A : Type} (l : list A) i c :
  nth_error l i = Some c -> l @ i = Normal c.
Proof. intros H; unfold index; rewrite H; reflexivity. Qed.

Lemma nth_lt {A : Type} (l : list A) i c :
  nth_error l i = Some c -> i < length l.
Proof. intros H. apply nth_error_Some. congruence. Qed.

Lemma app_tail_of {A : Type} (a w t v : list A) :
  a ++ t = w ++ v -> length a <= length w -> exists x, t = x ++ v.
Proof.
  intros E L. exists (skipn (length a) w).
  assert (H : skipn (length a) (a ++ t) = skipn (length a) (w ++ v))
    by (rewrite E; reflexivity).
  rewrite !skipn_app, skipn_all, Nat.sub_diag in H. simpl in H.
  replace (length a - length w) with 0 in H by lia. exact H.
Qed.

(** ** Facts of the reference semantics *)

Section Semantics.
Variable sym : Type.
Variable eqb : sym -> sym -> bool.
Variables star quest : sym.
Hypothesis eqb_eq : forall a b, eqb a b = true <-> a = b.

Local Abbreviation glob := (Pattern.glob eqb star quest).
Local Abbreviation Matches := (Pattern.Matches star quest).
Local Abbreviation smatch := (Pattern.smatch eqb star quest).
Local Abbreviation aligned := (Pattern.aligned eqb star quest).
Local Abbreviation need := (Pattern.need eqb star).

Lemma eqb_refl c : eqb c c = true.
Proof. apply eqb_eq; reflexivity. Qed.

Lemma glob_wild_nil c p : eqb c star = true -> glob (c :: p) [] = glob p [].
Proof. intros H; simpl; rewrite H. apply orb_false_r. Qed.

Lemma glob_wild_cons c p d s :
  eqb c star = true ->
  glob (c :: p) (d :: s) = glob p (d :: s) || glob (c :: p) s.
Proof. intros H; simpl; rewrite H. reflexivity. Qed.

Lemma glob_star_nil p : glob (star :: p) [] = glob p [].
Proof. apply glob_wild_nil, eqb_refl. Qed.

Lemma glob_star_cons p d s :
  glob (star :: p) (d :: s) = glob p (d :: s) || glob (star :: p) s.
Proof. apply glob_wild_cons, eqb_refl. Qed.

Lemma glob_sym_nil c p : eqb c star = false -> glob (c :: p) [] = false.
Proof. intros H; simpl; rewrite H; reflexivity. Qed.

Lemma glob_sym_cons c p d s :
  eqb c star = false ->
  glob (c :: p) (d :: s) = (eqb c quest || eqb c d) && glob p s.
Proof. intros H; simpl; rewrite H; reflexivity. Qed.

Lemma glob_nil_cons d s : glob [] (d :: s) = false.
Proof. reflexivity. Qed.

Lemma glob_star_intro p s : glob p s = true -> glob (star :: p) s = true.
Proof.
  intros H. destruct s.
  - rewrite glob_star_nil; exact H.
  - rewrite glob_star_cons, H; reflexivity.
Qed.

Lemma glob_only_star s : glob [star] s = true.
Proof.
  induction s as [|d s IH].
  - rewrite glob_star_nil; reflexivity.
  - rewrite glob_star_cons, IH. apply orb_true_r.
Qed.

(** A pattern that starts with [star] still matches when the subject grows
    at the front. *)
Lemma glob_star_grow p u s :
  glob (star :: p) s = true -> glob (star :: p) (u ++ s) = true.
Proof.
  intros H; induction u as [|d u IH]; simpl app; auto.
  rewrite glob_star_cons, IH. apply orb_true_r.
Qed.

Lemma glob_star_split p s :
  glob (star :: p) s = true -> exists u v, s = u ++ v /\ glob p v = true.
Proof.
  induction s as [|d s IH].
  - rewrite glob_star_nil. intros H; exists [], []; auto.
  - rewrite glob_star_cons. intros H. apply orb_true_iff in H as [H|H].
    + exists [], (d :: s); auto.
    + destruct (IH H) as (u & v & -> & Hv). exists (d :: u), v; auto.
Qed.

Lemma glob_star_star p s : glob (star :: star :: p) s = glob (star :: p) s.
Proof.
  induction s as [|d s IH].
  - rewrite glob_star_nil; reflexivity.
  - rewrite (glob_star_cons (star :: p)), IH, (glob_star_cons p d s).
    destruct (glob p (d :: s)), (glob (star :: p) s); reflexivity.
Qed.

Lemma aligned_length q a : aligned q a -> length q = length a.
Proof. apply Forall2_length. Qed.

Lemma aligned_snoc q a c d :
  aligned q a -> smatch c d = true -> aligned (q ++ [c]) (a ++ [d]).
Proof. intros H1 H2. apply Forall2_app; auto. Qed.

Lemma smatch_parts c d :
  smatch c d = true -> eqb c star = false /\ (eqb c quest || eqb c d) = true.
Proof.
  unfold Pattern.smatch. intros H. apply andb_true_iff in H as [H1 H2].
  apply negb_true_iff in H1. auto.
Qed.

Lemma glob_aligned q a p s : aligned q a -> glob (q ++ p) (a ++ s) = glob p s.
Proof.
  induction 1 as [|c d q a Hcd _ IH]; simpl app; auto.
  apply smatch_parts in Hcd as [H1 H2].
  rewrite glob_sym_cons, H2, IH by exact H1. reflexivity.
Qed.

Lemma glob_peel q p v :
  Forall (fun c => eqb c star = false) q ->
  glob (q ++ p) v = true ->
  exists a v', v = a ++ v' /\ length a = length q /\ glob p v' = true.
Proof.
  intros Hq; revert v; induction Hq as [|c q Hc _ IH]; intros v H.
  - exists [], v; auto.
  - simpl app in H. destruct v as [|d v].
    + rewrite glob_sym_nil in H by exact Hc. discriminate.
    + rewrite glob_sym_cons in H by exact Hc.
      apply andb_true_iff in H as [_ H].
      destruct (IH _ H) as (a & v' & -> & L & Hv).
      exists (d :: a), v'; simpl; auto.
Qed.

Lemma aligned_nostar q a :
  aligned q a -> Forall (fun c => eqb c star = false) q.
Proof.
  induction 1 as [|c d q a Hcd _ IH]; constructor; auto.
  apply smatch_parts in Hcd; tauto.
Qed.

(** When the block between two stars has matched, the earlier star has
    done its work: only the later one is still open. *)
Lemma glob_next_star q a r t :
  aligned q a ->
  glob (star :: q ++ star :: r) (a ++ t) = glob (star :: r) t.
Proof.
  intros Hqa. apply eq_true_iff_eq; split; intros H.
  - apply glob_star_split in H as (u & v & E & H).
    apply glob_peel in H as (a' & v' & -> & L & H);
      [|eapply aligned_nostar; eauto].
    rewrite app_assoc in E.
    apply app_tail_of in E as [x ->].
    + apply glob_star_grow; exact H.
    + rewrite length_app, L, (aligned_length Hqa). lia.
  - apply glob_star_intro. rewrite glob_aligned; auto.
Qed.

(** A [quest] right after the open star takes one symbol, whichever. *)
Lemma glob_star_quest c r d t :
  eqb c star = false -> eqb c quest = true ->
  glob (star :: c :: r) (d :: t) = glob (star :: r) t.
Proof.
  intros Hs Hq. revert d; induction t as [|d' t IH]; intros d.
  - rewrite glob_star_cons, glob_sym_cons, Hq, !glob_star_nil, glob_sym_nil
      by exact Hs.
    simpl. apply orb_false_r.
  - rewrite glob_star_cons, glob_sym_cons, Hq, IH by exact Hs.
    rewrite (glob_star_cons r). reflexivity.
Qed.

Lemma glob_need p : forall s, glob p s = true -> need p <= length s.
Proof.
  induction p as [|c p IH]; intros s H.
  - unfold Pattern.need; simpl; lia.
  - destruct (eqb c star) eqn:E.
    + apply eqb_eq in E; subst c.
      apply glob_star_split in H as (u & v & -> & H).
      unfold Pattern.need in *; simpl. rewrite eqb_refl; simpl.
      apply IH in H. rewrite length_app. lia.
    + destruct s as [|d s].
      * rewrite glob_sym_nil in H by exact E; discriminate.
      * rewrite glob_sym_cons in H by exact E.
        apply andb_true_iff in H as [_ H]. apply IH in H.
        unfold Pattern.need in *; simpl. rewrite E; simpl. lia.
Qed.

Lemma need_aligned q a p : aligned q a -> need (q ++ p) = length a + need p.
Proof.
  induction 1 as [|c d q a Hcd _ IH]; auto.
  apply smatch_parts in Hcd as [H1 _].
  unfold Pattern.need in *; simpl. rewrite H1; simpl. rewrite IH. reflexivity.
Qed.

(** The subject has run out and the pattern still holds a symbol that is
    no star: nothing can match. *)
Lemma glob_starved q a c r :
  aligned q a -> eqb c star = false ->
  glob (star :: q ++ c :: r) a = false.
Proof.
  intros Hqa Hc. apply not_true_is_false. intros H.
  apply glob_need in H. unfold Pattern.need in H; simpl in H.
  rewrite eqb_refl in H; simpl in H.
  fold (need (q ++ c :: r)) in H. rewrite (need_aligned _ Hqa) in H.
  unfold Pattern.need in H; simpl in H. rewrite Hc in H; simpl in H. lia.
Qed.

(** The open star skips a subject symbol that the next literal refuses. *)
Lemma glob_star_skip p d t :
  glob p (d :: t) = false -> glob (star :: p) (d :: t) = glob (star :: p) t.
Proof. intros H. rewrite glob_star_cons, H. reflexivity. Qed.

Lemma glob_literal_differs c r d t :
  eqb c star = false -> eqb c quest = false -> eqb c d = false ->
  glob (c :: r) (d :: t) = false.
Proof. intros Hs Hq Hd. rewrite glob_sym_cons, Hq, Hd by exact Hs. reflexivity. Qed.

(** The search decides the relation. *)
Lemma glob_Matches p s : glob p s = true <-> Matches p s.
Proof.
  split.
  - revert s; induction p as [|c p IH]; intros s H.
    + destruct s; [constructor | discriminate].
    + destruct (eqb c star) eqn:E.
      * apply eqb_eq in E; subst c.
        apply glob_star_split in H as (u & v & -> & H).
        constructor; auto.
      * destruct s as [|d s]; [rewrite glob_sym_nil in H by exact E; discriminate|].
        rewrite glob_sym_cons in H by exact E.
        apply andb_true_iff in H as [H1 H2].
        destruct (eqb c quest) eqn:Q.
        -- apply eqb_eq in Q; subst c. constructor; auto.
        -- simpl in H1. apply eqb_eq in H1; subst d.
           constructor; auto.
           ++ intros ->. rewrite eqb_refl in E; discriminate.
           ++ intros ->. rewrite eqb_refl in Q; discriminate.
  - induction 1 as [|c p s Hs Hq _ IH|d p s _ IH|p s1 s2 _ IH].
    + reflexivity.
    + rewrite glob_sym_cons, eqb_refl, IH.
      * rewrite orb_true_r; reflexivity.
      * destruct (eqb c star) eqn:E; auto. apply eqb_eq in E; contradiction.
    + destruct (eqb quest star) eqn:E.
      * apply eqb_eq in E.
        replace (quest :: p) with (star :: p) by (rewrite E; reflexivity).
        apply (glob_star_grow _ [d]). apply glob_star_intro; exact IH.
      * rewrite glob_sym_cons, eqb_refl, IH by exact E. reflexivity.
    + apply glob_star_grow. apply glob_star_intro; exact IH.
Qed.

End Semantics.

(** ** The loops of the matcher, one specification each *)

(** Unfold the monad and the booleans, never the semantics. *)
Ltac go := cbn [wp bind and_then or_else negb andb orb].

Section Correctness.
Variable sym : Type.
Variable eqb : sym -> sym -> bool.
Variables star quest : sym.
Hypothesis eqb_eq : forall a b, eqb a b = true <-> a = b.
Variable fuel : nat.
Variables wild tame : list sym.

Local Abbreviation glob := (Pattern.glob eqb star quest).
Local Abbreviation smatch := (Pattern.smatch eqb star quest).
Local Abbreviation aligned := (Pattern.aligned eqb star quest).
Local Abbreviation W := (length wild).
Local Abbreviation T := (length tame).
Local Abbreviation short := (fuel < budget wild tame).
(** The open question at checkpoint [(i, j)]: does [star] followed by the
    pattern from [i] match the subject from [j]? *)
Local Abbreviation G i j := (glob (star :: skipn i wild) (skipn j tame)).
(** The pattern symbol at [i] is a literal, or the pattern has ended. *)
Local Abbreviation literal_at i :=
  (W <= i \/
   exists c, nth_error wild i = Some c /\ eqb c star = false /\
             eqb c quest = false).

Lemma within_budget m : m <= W \/ m <= T -> m < fuel \/ short.
Proof.
  intros H. destruct (le_lt_dec (budget wild tame) fuel) as [L|L]; [left|right; exact L].
  unfold budget in L. nia.
Qed.

Lemma skipn_next {A : Type} (l : list A) y d r :
  skipn y l = d :: r -> skipn (S y) l = r.
Proof.
  intros H. change (S y) with (1 + y). rewrite <- skipn_skipn, H. reflexivity.
Qed.

Lemma G_skip i j c d :
  nth_error wild i = Some c -> eqb c star = false -> eqb c quest = false ->
  nth_error tame j = Some d -> eqb c d = false ->
  G i j = G i (S j).
Proof.
  intros Hc Hs Hq Hd Hne.
  rewrite (skipn_nth _ _ Hc), (skipn_nth _ _ Hd).
  apply glob_star_skip; auto. apply glob_literal_differs; auto.
Qed.

Lemma G_end i j c :
  nth_error wild i = Some c -> eqb c star = false -> T <= j -> G i j = false.
Proof.
  intros Hc Hs Hj. rewrite (skipn_nth _ _ Hc), (skipn_all2 tame Hj).
  rewrite glob_star_nil by exact eqb_eq. apply glob_sym_nil; exact Hs.
Qed.

Lemma trailing_stars_spec i :
  i < W ->
  wp short (Matcher.trailing_stars eqb star fuel wild i)
     (fun _ => glob (skipn i wild) [] = false)
     (fun b => b = glob (skipn i wild) []).
Proof.
  intros Hi. unfold Matcher.trailing_stars.
  apply wp_for with
    (Inv := fun j => j < W /\ glob (skipn j wild) [] = glob (skipn i wild) [])
    (mu := fun j => W - j).
  - intros j [Hj Hg].
    destruct (index_in wild Hj) as (c & Hc & ->); go.
    rewrite (skipn_nth _ _ Hc) in Hg.
    destruct (eqb c star) eqn:E.
    + apply eqb_eq in E; subst c. rewrite glob_star_nil in Hg by exact eqb_eq.
      destruct (W <=? S j) eqn:L; go.
      * apply Nat.leb_le in L. rewrite skipn_all2 in Hg by exact L. auto.
      * apply Nat.leb_gt in L. repeat split; auto; lia.
    + go. rewrite <- Hg. apply glob_sym_nil; exact E.
  - auto.
  - apply within_budget; left; lia.
Qed.

Lemma star_run_spec i :
  (exists w, nth_error wild i = Some w /\ eqb w star = true) ->
  wp short (Matcher.star_run eqb star fuel wild i)
     (fun i' => i < i' /\
                exists c, nth_error wild i' = Some c /\ eqb c star = false /\
                          forall t, glob (star :: skipn i' wild) t
                                    = glob (skipn i wild) t)
     (fun b => b = true /\ forall t, glob (skipn i wild) t = true).
Proof.
  intros (w & Hw & E). apply eqb_eq in E; subst w.
  unfold Matcher.star_run.
  apply wp_for with
    (Inv := fun j => i <= j /\ j < W /\
                     forall t, glob (star :: skipn (S j) wild) t
                               = glob (skipn i wild) t)
    (mu := fun j => W - j).
  - intros j (Hij & Hj & Hg). cbv zeta.
    destruct (W <=? S j) eqn:L; go.
    + apply Nat.leb_le in L. split; auto. intros t.
      rewrite <- Hg, (skipn_all2 wild L). apply glob_only_star; exact eqb_eq.
    + apply Nat.leb_gt in L.
      destruct (index_in wild L) as (c & Hc & ->); go.
      destruct (eqb c star) eqn:E; go.
      * apply eqb_eq in E; subst c. repeat split; try lia.
        intros t. rewrite <- Hg, (skipn_nth _ _ Hc).
        symmetry; apply glob_star_star; exact eqb_eq.
      * split; [lia|]. exists c; auto.
  - repeat split; auto. { eapply nth_lt; eauto. }
    intros t. rewrite (skipn_nth _ _ Hw). reflexivity.
  - apply within_budget; left; lia.
Qed.

Lemma first_candidate_spec i j c :
  nth_error wild i = Some c -> eqb c star = false -> eqb c quest = false ->
  j < T ->
  wp short (Matcher.first_candidate eqb fuel wild tame i j)
     (fun j' => j <= j' /\ G i j' = G i j /\
                exists d, nth_error tame j' = Some d /\ eqb c d = true)
     (fun b => b = G i j).
Proof.
  intros Hc Hs Hq Hj. unfold Matcher.first_candidate.
  apply wp_for with
    (Inv := fun j' => j <= j' /\ j' < T /\ G i j' = G i j)
    (mu := fun j' => T - j').
  - intros j' (Hjj & Hj' & Hg).
    rewrite (index_normal _ _ Hc); go.
    destruct (index_in tame Hj') as (d & Hd & ->); go.
    destruct (eqb c d) eqn:E; go.
    + repeat split; auto. exists d; auto.
    + rewrite (G_skip _ _ Hc Hs Hq Hd E) in Hg.
      destruct (T <=? S j') eqn:L; go.
      * apply Nat.leb_le in L. rewrite <- Hg. symmetry. eapply G_end; eauto.
      * apply Nat.leb_gt in L. repeat split; auto; lia.
  - auto.
  - apply within_budget; right; lia.
Qed.

Lemma next_candidate_spec i j c :
  nth_error wild i = Some c -> eqb c star = false -> eqb c quest = false ->
  j < T ->
  wp short (Matcher.next_candidate eqb fuel wild tame i j)
     (fun j' => j <= j' /\ G i j' = G i j /\
                exists d, nth_error tame j' = Some d /\ eqb c d = true)
     (fun b => b = G i j).
Proof.
  intros Hc Hs Hq Hj. unfold Matcher.next_candidate.
  apply wp_for with
    (Inv := fun j' => j <= j' /\ j' < T /\ G i j' = G i j)
    (mu := fun j' => T - j').
  - intros j' (Hjj & Hj' & Hg).
    assert (Lt : (T >? j') = true) by (apply Nat.ltb_lt; exact Hj').
    rewrite Lt; go.
    rewrite (index_normal _ _ Hc); go.
    destruct (index_in tame Hj') as (d & Hd & ->); go.
    destruct (eqb c d) eqn:E; go.
    + repeat split; auto. exists d; auto.
    + rewrite (G_skip _ _ Hc Hs Hq Hd E) in Hg.
      destruct (T <=? S j') eqn:L; go.
      * apply Nat.leb_le in L. rewrite <- Hg. symmetry. eapply G_end; eauto.
      * apply Nat.leb_gt in L. repeat split; auto; lia.
  - auto.
  - apply within_budget; right; lia.
Qed.

(** The retry.  [(x, y)] is the checkpoint, [(iWild, iTame)] the place of
    the mismatch, [q] and [a] what was matched between them. *)
Section Retry.
Variables iWild iTame : nat.
Hypothesis tame_left : iTame < T.
Hypothesis wild_bound : iWild <= W.
Hypothesis mismatch : glob (skipn iWild wild) (skipn iTame tame) = false.
Hypothesis literal_here : literal_at iWild.

Local Abbreviation matched x y :=
  (exists q a, aligned q a /\
               skipn x wild = q ++ skipn iWild wild /\
               skipn y tame = a ++ skipn iTame tame /\
               (iWild = x + length q)%nat /\ (iTame = y + length a)%nat).

Lemma questions_spec x y :
  matched x y ->
  wp short (Matcher.questions eqb quest fuel wild x y)
     (fun '(x', y') => x <= x' /\ y <= y' /\ matched x' y' /\
                       G x' y' = G x y /\ literal_at x')
     (fun _ => False).
Proof.
  intros Hm. unfold Matcher.questions.
  apply wp_for with
    (Inv := fun '(x', y') => x <= x' /\ y <= y' /\ matched x' y' /\
                             G x' y' = G x y)
    (mu := fun '(x', _) => W - x').
  - intros [x' y'] (Hx & Hy & (q & a & Hqa & Ew & Et & Ei & Ej) & Hg).
    destruct (W >? x') eqn:L; go.
    + apply Nat.ltb_lt in L.
      destruct (index_in wild L) as (w & Hw & ->); go.
      rewrite (skipn_nth _ _ Hw) in Ew.
      destruct (eqb w quest) eqn:Q; go.
      * destruct Hqa as [|c0 d0 q a Hcd Hqa].
        { exfalso. simpl in Ei. rewrite Nat.add_0_r in Ei; subst x'.
          destruct literal_here as [H|(c & Hc & _ & Hcq)]; [lia|].
          rewrite Hw in Hc; injection Hc as ->. congruence. }
        simpl in Ew, Et. injection Ew as -> Ew.
        apply smatch_parts in Hcd as [Hs _].
        split; [|lia]. split; [lia|]. split; [lia|]. split.
        -- exists q, a. repeat split; auto.
           ++ eapply skipn_next; eauto.
           ++ simpl in Ei; lia.
           ++ simpl in Ej; lia.
        -- rewrite <- Hg. rewrite (skipn_nth _ _ Hw), Et.
           rewrite (skipn_next _ _ Et).
           symmetry; apply glob_star_quest; auto.
      * split; [lia|]. split; [lia|]. split; [exists q, a; repeat split; auto|].
        { rewrite (skipn_nth _ _ Hw); exact Ew. }
        split; [exact Hg|]. right. exists w. repeat split; auto.
        destruct Hqa as [|c0 d0 q a Hcd Hqa].
        { simpl in Ei. rewrite Nat.add_0_r in Ei; subst x'.
          destruct literal_here as [H|(c & Hc & Hcs & _)]; [lia|].
          rewrite Hw in Hc; injection Hc as ->. exact Hcs. }
        simpl in Ew. injection Ew as -> Ew.
        apply smatch_parts in Hcd; tauto.
    + apply Nat.ltb_ge in L.
      split; [lia|]. split; [lia|]. split; [exists q, a; repeat split; auto|].
      split; [exact Hg|]. left; exact L.
  - repeat split; auto.
  - apply within_budget; left; lia.
Qed.

Lemma matched_fails x y :
  matched x y -> glob (skipn x wild) (skipn y tame) = false.
Proof.
  intros (q & a & Hqa & -> & -> & _). rewrite glob_aligned; auto.
Qed.

Lemma matched_bounds x y : matched x y -> x <= W /\ y < T.
Proof. intros (q & a & _ & _ & _ & Ei & Ej). lia. Qed.

End Retry.

Lemma fall_back_spec x y :
  y < T -> literal_at x -> glob (skipn x wild) (skipn y tame) = false ->
  wp short (Matcher.fall_back eqb fuel wild tame x y)
     (fun y' => y < y' /\ y' < T /\ x < W /\ G x y' = G x y /\
                exists c d, nth_error wild x = Some c /\
                            nth_error tame y' = Some d /\ smatch c d = true)
     (fun b => b = G x y).
Proof.
  intros Hy Hlit Hfail. unfold Matcher.fall_back.
  apply wp_for with
    (Inv := fun y' => y <= y' /\ y' < T /\ G x y' = G x y /\
                      glob (skipn x wild) (skipn y' tame) = false)
    (mu := fun y' => T - y').
  - intros y' (Hyy & Hy' & Hg & Hf). cbv zeta.
    destruct (index_in tame Hy') as (d0 & Hd0 & _).
    rewrite (skipn_nth _ _ Hd0) in Hg, Hf.
    rewrite glob_star_skip in Hg by assumption.
    destruct (T <=? S y') eqn:L; go.
    + apply Nat.leb_le in L. rewrite (skipn_all2 tame L) in Hg.
      rewrite glob_star_nil in Hg by exact eqb_eq. rewrite <- Hg.
      destruct (W <=? x) eqn:Lx; go.
      * apply Nat.leb_le in Lx. rewrite (skipn_all2 wild Lx). reflexivity.
      * apply Nat.leb_gt in Lx.
        destruct Hlit as [H|(c & Hc & Hcs & _)]; [lia|].
        rewrite (skipn_nth _ _ Hc). symmetry; apply glob_sym_nil; exact Hcs.
    + apply Nat.leb_gt in L.
      destruct (index_in tame L) as (d & Hd & Id).
      destruct (W >? x) eqn:Lx; go.
      * apply Nat.ltb_lt in Lx.
        destruct Hlit as [H|(c & Hc & Hcs & Hcq)]; [lia|].
        rewrite (index_normal _ _ Hc), Id; go.
        destruct (eqb c d) eqn:E; go.
        -- repeat split; auto; try lia. exists c, d. repeat split; auto.
           unfold Pattern.smatch. rewrite Hcs, E. apply orb_true_r.
        -- split; [|lia]. repeat split; auto; try lia.
           rewrite (skipn_nth _ _ Hc), (skipn_nth _ _ Hd).
           apply glob_literal_differs; auto.
      * apply Nat.ltb_ge in Lx. split; [|lia]. repeat split; auto; try lia.
        rewrite (skipn_all2 wild Lx), (skipn_nth _ _ Hd). reflexivity.
  - repeat split; auto.
  - apply within_budget; right; lia.
Qed.

Lemma backtrack_spec iWild iTame x y q a :
  iTame < T -> iWild <= W ->
  glob (skipn iWild wild) (skipn iTame tame) = false ->
  literal_at iWild ->
  aligned q a ->
  skipn x wild = q ++ skipn iWild wild ->
  skipn y tame = a ++ skipn iTame tame ->
  iWild = x + length q -> iTame = y + length a ->
  wp short (Matcher.backtrack eqb quest fuel wild tame x y)
     (fun '(i', j', x', y') =>
        i' = x' /\ j' = y' /\ x <= x' /\ y < y' /\ x' < W /\ y' < T /\
        G x' y' = G x y /\
        exists c d, nth_error wild x' = Some c /\
                    nth_error tame y' = Some d /\ smatch c d = true)
     (fun b => b = G x y).
Proof.
  intros Ht Hw Hmis Hlit Hqa Ew Et Ei Ej. unfold Matcher.backtrack.
  apply wp_bind.
  eapply wp_mono;
    [| |apply questions_spec with (iWild := iWild) (iTame := iTame);
         try assumption].
  - intros [x' y'] (Hx & Hy & Hm & Hg & Hl). cbv beta iota.
    apply wp_bind.
    assert (B : x' <= W /\ y' < T) by (eapply matched_bounds; eauto).
    assert (F : glob (skipn x' wild) (skipn y' tame) = false)
      by (eapply matched_fails; eauto).
    destruct B as [Bx By].
    eapply wp_mono; [| |apply fall_back_spec; eauto].
    + intros y'' (H1 & H2 & H3 & H4 & H5). go.
      repeat split; auto; try lia. congruence.
    + intros b ->. auto.
  - intros b [].
  - exists q, a. repeat split; auto.
Qed.

(** *** The second loop *)

(** Between the checkpoint [(x, y)] and the cursors the pattern has no
    star and accepts the subject symbol by symbol; the verdict is the open
    question at the checkpoint. *)
Local Abbreviation holds_at iWild iTame x y :=
  (exists q a, aligned q a /\
               skipn x wild = q ++ skipn iWild wild /\
               skipn y tame = a ++ skipn iTame tame /\
               (iWild = x + length q)%nat /\ (iTame = y + length a)%nat).

Local Abbreviation InvB :=
  (fun c : cursor =>
     let '(iWild, iTame, x, y) := c in
     holds_at iWild iTame x y /\ iWild <= W /\ iTame <= T /\
     G x y = glob wild tame).

(** The variant: a retry moves the checkpoint in the subject, any other
    pass moves the pattern cursor. *)
Local Abbreviation muB :=
  (fun c : cursor =>
     let '(iWild, _, _, y) := c in (T - y) * (W + 1) + (W - iWild)).

Lemma advance iWild iTame x y m :
  holds_at iWild iTame x y -> iWild < W -> iTame < T ->
  G x y = glob wild tame ->
  (exists c d, nth_error wild iWild = Some c /\
               nth_error tame iTame = Some d /\ smatch c d = true) ->
  (T - y) * (W + 1) + (W - S iWild) < m ->
  wp short
     (if T <=? iTame
      then if W <=? iWild then Returned true else Returned false
      else Normal (Again (S iWild, S iTame, x, y)))
     (fun st => match st with
                | Again s' => InvB s' /\ muB s' < m
                | Leave _ => False
                end)
     (fun b => b = glob wild tame).
Proof.
  intros (q & a & Hqa & Ew & Et & Ei & Ej) Bw Bt Hg (c & d & Hc & Hd & Hcd) Hm.
  assert (L : (T <=? iTame) = false) by (apply Nat.leb_gt; exact Bt).
  rewrite L; go. split; [|exact Hm].
  split; [|repeat split; auto; lia].
  exists (q ++ [c]), (a ++ [d]). split; [apply aligned_snoc; auto|].
  rewrite <- !app_assoc, !length_app. cbn [app length].
  rewrite <- (skipn_nth _ _ Hc), <- (skipn_nth _ _ Hd).
  repeat split; auto; lia.
Qed.

Lemma second_loop_spec s :
  InvB s ->
  wp short (Matcher.second_loop eqb star quest fuel wild tame s)
     (fun st => match st with
                | Again s' => InvB s' /\ muB s' < muB s
                | Leave _ => False
                end)
     (fun b => b = glob wild tame).
Proof.
  destruct s as [[[iWild iTame] x] y].
  intros ((q & a & Hqa & Ew & Et & Ei & Ej) & Bw & Bt & Hg).
  unfold Matcher.second_loop.
  assert (Here : G x y = glob (star :: q ++ skipn iWild wild)
                              (a ++ skipn iTame tame))
    by (rewrite Ew, Et; reflexivity).
  assert (Split :
    (exists w, nth_error wild iWild = Some w /\ eqb w star = true) \/
    (W <= iWild \/ exists w, nth_error wild iWild = Some w /\ eqb w star = false)).
  { destruct (le_lt_dec W iWild) as [L|L]; [right; left; exact L|].
    destruct (index_in wild L) as (w & Hw & _).
    destruct (eqb w star) eqn:E; [left|right; right]; exists w; auto. }
  destruct Split as [(w & Hw & Es)|Else].
  - (* Got wild again. *)
    assert (Lw : (W >? iWild) = true) by (apply Nat.ltb_lt; eapply nth_lt; eauto).
    rewrite Lw; go. rewrite (index_normal _ _ Hw); go. rewrite Es.
    assert (Open : G x y = glob (skipn iWild wild) (skipn iTame tame)).
    { rewrite Here. pose proof Es as E. apply eqb_eq in E; subst w.
      rewrite (skipn_nth _ _ Hw). apply glob_next_star; auto. }
    apply wp_bind. apply wp_bind.
    eapply wp_mono; [| |apply star_run_spec; eauto].
    + intros i' (Hi & c & Hc & Hcs & Hrun).
      assert (Hi' : G i' iTame = glob wild tame)
        by (rewrite Hrun, <- Open; exact Hg).
      destruct (T <=? iTame) eqn:L; go.
      { apply Nat.leb_le in L. rewrite <- Hi'. symmetry; eapply G_end; eauto. }
      apply Nat.leb_gt in L.
      rewrite (index_normal _ _ Hc); go.
      assert (Fresh : forall j', holds_at i' j' i' j')
        by (intros j'; exists [], []; repeat split; auto; constructor).
      pose proof (nth_lt _ _ Hc) as Li'.
      destruct (eqb c quest) eqn:Q; go.
      * apply advance; auto.
        -- destruct (index_in tame L) as (d & Hd & _). exists c, d.
           repeat split; auto. unfold Pattern.smatch. rewrite Hcs, Q. reflexivity.
        -- nia.
      * apply wp_bind.
        eapply wp_mono; [| |apply next_candidate_spec; eauto].
        -- intros j' (Hj & Hgj & d & Hd & Ecd). go.
           apply advance; auto.
           ++ eapply nth_lt; eauto.
           ++ congruence.
           ++ exists c, d. repeat split; auto.
              unfold Pattern.smatch. rewrite Hcs, Ecd. apply orb_true_r.
           ++ nia.
        -- intros b ->. exact Hi'.
    + intros b [-> Hall]. rewrite <- Hg, Open. symmetry; apply Hall.
  - (* The equivalent portion of the upper loop. *)
    assert (Guard : and_then (W >? iWild)
                      (w <- wild @ iWild ;; Normal (eqb w star)) = Normal false).
    { destruct Else as [L|(w & Hw & Es)].
      - apply Nat.ltb_ge in L. rewrite L. reflexivity.
      - rewrite (index_normal _ _ Hw). go. rewrite Es.
        destruct (W >? iWild); reflexivity. }
    rewrite Guard; go.
    destruct (T <=? iTame) eqn:L; go.
    { apply Nat.leb_le in L. rewrite (skipn_all2 tame L), app_nil_r in Here.
      rewrite <- Hg, Here.
      destruct Else as [Lw|(w & Hw & Es)].
      - pose proof Lw as Lw'. apply Nat.leb_le in Lw'. rewrite Lw'; go.
        rewrite (skipn_all2 wild Lw). symmetry. apply glob_star_intro; auto.
        rewrite <- (app_nil_r a) at 1. rewrite glob_aligned; auto.
      - pose proof (nth_lt _ _ Hw) as Lw. apply Nat.leb_gt in Lw. rewrite Lw; go.
        rewrite (skipn_nth _ _ Hw). symmetry. apply glob_starved; auto. }
    apply Nat.leb_gt in L.
    destruct (index_in tame L) as (d & Hd & Id).
    assert (Retry :
      glob (skipn iWild wild) (skipn iTame tame) = false -> literal_at iWild ->
      wp short
        (' (iWild0, iTame0, iWildSequence, iTameSequence) <-
           Matcher.backtrack eqb quest fuel wild tame x y ;;
         (if T <=? iTame0
          then if W <=? iWild0 then Returned true else Returned false
          else Normal (Again (S iWild0, S iTame0, iWildSequence, iTameSequence))))
        (fun st => match st with
                   | Again s' => InvB s' /\ muB s' < muB (iWild, iTame, x, y)
                   | Leave _ => False
                   end)
        (fun b => b = glob wild tame)).
    { intros Hmis Hlit. apply wp_bind.
      eapply wp_mono; [| |eapply backtrack_spec; eauto].
      - intros [[[i' j'] x'] y'] (-> & -> & Hx & Hy & Bx & By & Hgx & Hcd).
        apply advance; auto.
        + exists [], []. repeat split; auto. constructor.
        + congruence.
        + nia.
      - intros b ->. exact Hg. }
    destruct Else as [Lw|(w & Hw & Es)].
    + pose proof Lw as Lw'. apply Nat.leb_le in Lw'. rewrite Lw'; go.
      apply Retry; [|left; exact Lw].
      rewrite (skipn_all2 wild Lw), (skipn_nth _ _ Hd). reflexivity.
    + pose proof (nth_lt _ _ Hw) as Lw. pose proof Lw as Lw'.
      apply Nat.leb_gt in Lw'. rewrite Lw'; go.
      rewrite (index_normal _ _ Hw), Id; go.
      destruct (eqb w d) eqn:Ed; destruct (eqb w quest) eqn:Eq; go;
        try (apply advance; auto;
             [exists q, a; repeat split; auto
             |exists w, d; repeat split; auto;
              unfold Pattern.smatch; rewrite Es, Eq, ?Ed; reflexivity
             |nia]).
      apply Retry; [|right; exists w; auto].
      rewrite (skipn_nth _ _ Hw), (skipn_nth _ _ Hd).
      apply glob_literal_differs; auto.
Qed.

(** *** The first loop *)

(** No star so far, and the pattern has accepted the subject symbol by
    symbol. *)
Local Abbreviation InvA :=
  (fun c : cursor =>
     let '(iWild, _, _, _) := c in
     exists q a, aligned q a /\
                 wild = q ++ skipn iWild wild /\
                 tame = a ++ skipn iWild tame /\
                 iWild <= W /\ iWild <= T).

Lemma first_loop_spec s :
  InvA s ->
  wp short (Matcher.first_loop eqb star quest fuel wild tame s)
     (fun st => match st with
                | Again s' => InvA s' /\
                              (let '(i', _, _, _) := s' in
                               let '(i, _, _, _) := s in T - i' < T - i)
                | Leave s' => InvB s'
                end)
     (fun b => b = glob wild tame).
Proof.
  destruct s as [[[iWild iTame] x] y].
  intros (q & a & Hqa & Ew & Et & Bw & Bt).
  unfold Matcher.first_loop.
  assert (Here : glob wild tame = glob (skipn iWild wild) (skipn iWild tame)).
  { rewrite Ew, Et at 1. apply glob_aligned; auto. }
  destruct (T <=? iWild) eqn:Lt.
  { apply Nat.leb_le in Lt. rewrite (skipn_all2 tame Lt) in Here.
    destruct (W >? iWild) eqn:Lw; go.
    - apply Nat.ltb_lt in Lw. apply wp_bind.
      eapply wp_mono; [| |apply trailing_stars_spec; exact Lw].
      + intros i0 H. go. congruence.
      + intros b ->. auto.
    - apply Nat.ltb_ge in Lw. rewrite (skipn_all2 wild Lw) in Here. exact (eq_sym Here). }
  apply Nat.leb_gt in Lt.
  destruct (index_in tame Lt) as (d & Hd & Id).
  destruct (W <=? iWild) eqn:Lw; go.
  { apply Nat.leb_le in Lw.
    rewrite (skipn_all2 wild Lw), (skipn_nth _ _ Hd) in Here. exact (eq_sym Here). }
  apply Nat.leb_gt in Lw.
  destruct (index_in wild Lw) as (w & Hw & ->); go.
  destruct (eqb w star) eqn:Es.
  - (* Got wild. *)
    apply wp_bind.
    eapply wp_mono; [| |apply star_run_spec; eauto].
    + intros i' (Hi & c & Hc & Hcs & Hrun).
      rewrite (index_normal _ _ Hc); go.
      assert (Hi' : G i' iWild = glob wild tame) by (rewrite Hrun; auto).
      pose proof (nth_lt _ _ Hc) as Li'.
      assert (Fresh : forall j', holds_at i' j' i' j')
        by (intros j'; exists [], []; repeat split; auto; constructor).
      destruct (eqb c quest) eqn:Q; go.
      * repeat split; auto; lia.
      * apply wp_bind.
        eapply wp_mono; [| |apply first_candidate_spec; eauto].
        -- intros j' (Hj & Hgj & d' & Hd' & _). go.
           pose proof (nth_lt _ _ Hd'). repeat split; auto; try lia. congruence.
        -- intros b ->. exact Hi'.
    + intros b [-> Hall]. rewrite Here. symmetry; apply Hall.
  - rewrite Id; go.
    destruct (eqb w d) eqn:Ed; destruct (eqb w quest) eqn:Eq; go;
      try (split; [|lia];
           exists (q ++ [w]), (a ++ [d]); split;
           [apply aligned_snoc; auto;
            unfold Pattern.smatch; rewrite Es, Eq, ?Ed; reflexivity|];
           rewrite <- !app_assoc; cbn [app];
           rewrite <- (skipn_nth _ _ Hw), <- (skipn_nth _ _ Hd);
           repeat split; auto; lia).
    rewrite Here, (skipn_nth _ _ Hw), (skipn_nth _ _ Hd).
    symmetry; apply glob_literal_differs; auto.
Qed.

Lemma muB_budget s : InvB s -> muB s < fuel \/ short.
Proof.
  destruct s as [[[iWild iTame] x] y]. intros _.
  destruct (le_lt_dec (budget wild tame) fuel) as [L|L]; [left|right; exact L].
  unfold budget in L. nia.
Qed.

(** The matcher decides the reference semantics: it never panics, and when
    the budget is not [short] it returns the verdict of [glob]. *)
Lemma run_spec :
  wp short (Matcher.run eqb star quest fuel wild tame)
     (fun _ => False) (fun b => b = glob wild tame).
Proof.
  unfold Matcher.run. apply wp_bind.
  eapply wp_mono;
    [| |apply wp_for with (Inv := InvA) (mu := fun s => let '(i, _, _, _) := s in T - i)
          (Q := InvB) (R := fun b => b = glob wild tame)].
  - intros s Hs.
    apply wp_for with (Inv := InvB) (mu := muB); auto using second_loop_spec.
    apply muB_budget; exact Hs.
  - auto.
  - intros s Hs. eapply wp_mono; [| |apply first_loop_spec; exact Hs]; auto.
    intros [[[[i' ?] ?] ?]|s'] H; auto. destruct s as [[[i ?] ?] ?]. exact H.
  - exists [], []. repeat split; auto; try lia. constructor.
  - apply within_budget; right; lia.
Qed.

End Correctness.

(** ** Consequences for any budget *)

Section Verdict.
Variable sym : Type.
Variable eqb : sym -> sym -> bool.
Variables star quest : sym.
Hypothesis eqb_eq : forall a b, eqb a b = true <-> a = b.
Variables wild tame : list sym.

Local Abbreviation run fuel := (Matcher.run eqb star quest fuel wild tame).

Lemma run_returns fuel :
  budget wild tame <= fuel ->
  run fuel = Returned (Pattern.glob eqb star quest wild tame).
Proof.
  intros L. pose proof (@run_spec _ eqb star quest eqb_eq fuel wild tame) as H.
  destruct (run fuel); simpl in H; try contradiction; try lia.
  rewrite H; reflexivity.
Qed.

Lemma run_in_bounds fuel : run fuel <> Panicked.
Proof.
  pose proof (@run_spec _ eqb star quest eqb_eq fuel wild tame) as H.
  intros E. rewrite E in H. exact H.
Qed.

Lemma run_exhausted fuel : run fuel = Exhausted -> fuel < budget wild tame.
Proof.
  pose proof (@run_spec _ eqb star quest eqb_eq fuel wild tame) as H.
  intros E. rewrite E in H. exact H.
Qed.

(** A retry moves the checkpoint forward in the subject, and hands both
    cursors the checkpoint. *)
Lemma backtrack_advances fuel x y i' j' x' y' :
  Matcher.backtrack eqb quest fuel wild tame x y = Normal (i', j', x', y') ->
  y < y' /\ y' < length tame /\ x <= x' /\ i' = x' /\ j' = y'.
Proof.
  unfold Matcher.backtrack.
  destruct (Matcher.questions eqb quest fuel wild x y) as [[x1 y1]| | |] eqn:Eq;
    try discriminate.
  assert (H1 : x <= x1 /\ y <= y1).
  { revert Eq. unfold Matcher.questions.
    apply for_leaves with (Inv := fun '(a, b) => x <= a /\ y <= b)
                          (Q := fun '(a, b) => x <= a /\ y <= b); auto.
    - intros [a b] [a' b'] [Ha Hb].
      destruct (length wild >? a); cbn [bind and_then]; try discriminate.
      destruct (wild @ a) as [w| | |]; cbn [bind]; try discriminate.
      destruct (eqb w quest); intros H; inversion H; subst; lia.
    - intros [a b] [a' b'] [Ha Hb].
      destruct (length wild >? a); cbn [bind and_then].
      + destruct (wild @ a) as [w| | |]; cbn [bind]; try discriminate.
        destruct (eqb w quest); intros H; inversion H; subst; lia.
      + intros H; inversion H; subst; lia. }
  cbn [bind].
  destruct (Matcher.fall_back eqb fuel wild tame x1 y1) as [y2| | |] eqn:Ef;
    try discriminate.
  cbn [bind]. intros H; inversion H; subst.
  assert (H2 : y1 < y' /\ y' < length tame).
  { revert Ef. unfold Matcher.fall_back.
    apply for_leaves with (Inv := fun b => y1 <= b)
                          (Q := fun b => y1 < b /\ b < length tame); auto.
    - intros b b' Hb. cbv zeta.
      destruct (length tame <=? S b).
      + destruct (length wild <=? x'); discriminate.
      + destruct (length wild >? x'); cbn [bind and_then].
        * destruct (wild @ x') as [w| | |]; cbn [bind]; try discriminate.
          destruct (tame @ S b) as [t| | |]; cbn [bind]; try discriminate.
          destruct (eqb w t); intros H0; inversion H0; subst; lia.
        * intros H0; inversion H0; subst; lia.
    - intros b b' Hb. cbv zeta.
      destruct (length tame <=? S b) eqn:L.
      + destruct (length wild <=? x'); discriminate.
      + apply Nat.leb_gt in L.
        destruct (length wild >? x'); cbn [bind and_then].
        * destruct (wild @ x') as [w| | |]; cbn [bind]; try discriminate.
          destruct (tame @ S b) as [t| | |]; cbn [bind]; try discriminate.
          destruct (eqb w t); intros H0; inversion H0; subst; lia.
        * discriminate. }
  lia.
Qed.

(** Entered below the subject's length, the scan of lines 72-78 checks
    the length before every later read. *)
Lemma first_candidate_in_bounds fuel iWild iTame :
  iWild < length wild -> iTame < length tame ->
  Matcher.first_candidate eqb fuel wild tame iWild iTame <> Panicked.
Proof.
  intros Hw Ht E.
  assert (H : wp True (Matcher.first_candidate eqb fuel wild tame iWild iTame)
                 (fun _ => True) (fun _ => True)).
  { unfold Matcher.first_candidate.
    apply wp_for with (Inv := fun j => j < length tame)
                      (mu := fun j => length tame - j); auto.
    intros j Hj.
    destruct (index_in wild Hw) as (w & _ & ->); go.
    destruct (index_in tame Hj) as (t & _ & ->); go.
    destruct (eqb w t); go; auto.
    destruct (length tame <=? S j) eqn:L; go; auto.
    apply Nat.leb_gt in L. lia. }
  rewrite E in H. exact H.
Qed.

End Verdict.

(** ** Laws of the reference semantics *)

Section Laws.
Variable sym : Type.
Variable eqb : sym -> sym -> bool.
Variables star quest : sym.
Hypothesis eqb_eq : forall a b, eqb a b = true <-> a = b.

Local Abbreviation glob := (Pattern.glob eqb star quest).
Local Abbreviation collapseStarRuns := (Pattern.collapseStarRuns eqb star).

Lemma glob_cons_ext c p1 p2 :
  (forall s, glob p1 s = glob p2 s) ->
  forall s, glob (c :: p1) s = glob (c :: p2) s.
Proof.
  intros H s. destruct (eqb c star) eqn:E.
  - apply eqb_eq in E; subst c. induction s as [|d s IH].
    + rewrite !glob_star_nil by exact eqb_eq. apply H.
    + rewrite !glob_star_cons by exact eqb_eq. rewrite H, IH. reflexivity.
  - destruct s as [|d s].
    + rewrite !glob_sym_nil by exact E. reflexivity.
    + rewrite !glob_sym_cons by exact E. rewrite H. reflexivity.
Qed.

Lemma glob_collapse p : forall s, glob (collapseStarRuns p) s = glob p s.
Proof.
  induction p as [|c p IH]; intros s; [reflexivity|].
  cbn [Pattern.collapseStarRuns].
  destruct (eqb c star) eqn:E.
  - destruct p as [|c' p]; [reflexivity|].
    destruct (eqb c' star) eqn:E'.
    + rewrite IH. apply eqb_eq in E, E'; subst c c'.
      symmetry; apply glob_star_star; exact eqb_eq.
    + apply glob_cons_ext; exact IH.
  - apply glob_cons_ext; exact IH.
Qed.

Lemma glob_stars n s : glob (repeat star (S n)) s = true.
Proof.
  induction n as [|n IH]; cbn [repeat] in *.
  - apply glob_only_star; exact eqb_eq.
  - rewrite glob_star_star by exact eqb_eq. exact IH.
Qed.

Lemma glob_self s : glob s s = true.
Proof.
  induction s as [|c s IH]; [reflexivity|].
  destruct (eqb c star) eqn:E.
  - apply eqb_eq in E; subst c.
    apply glob_star_grow with (u := [star]); [exact eqb_eq|].
    apply glob_star_intro; auto.
  - rewrite glob_sym_cons, IH, eqb_refl by assumption.
    rewrite orb_true_r; reflexivity.
Qed.

Lemma glob_nostar_length p s :
  Forall (fun c => eqb c star = false) p ->
  glob p s = true -> length s = length p.
Proof.
  intros Hp H. rewrite <- (app_nil_r p) in H.
  apply glob_peel in H as (a & v & -> & L & H); auto.
  destruct v; [|discriminate]. rewrite app_nil_r. exact L.
Qed.

(** Only the equality tests between pattern literals and subject symbols
    matter: a relabelling of the subject that keeps them keeps the
    verdict. *)
Lemma glob_relabel (f : sym -> sym) p :
  forall s, Pattern.respects_literals eqb star quest f p s = true ->
            glob p (map f s) = glob p s.
Proof.
  unfold Pattern.respects_literals.
  induction p as [|c p IH]; intros s H.
  - destruct s; reflexivity.
  - assert (Hp : forallb (fun d => forallb (fun c0 =>
                   eqb c0 star || eqb c0 quest
                   || Bool.eqb (eqb c0 (f d)) (eqb c0 d)) p) s = true).
    { rewrite forallb_forall in *. intros d Hd. specialize (H d Hd).
      simpl in H. apply andb_true_iff in H; tauto. }
    destruct (eqb c star) eqn:E.
    + apply eqb_eq in E; subst c. clear H.
      induction s as [|d s IHs].
      * cbn [map]. rewrite !glob_star_nil by exact eqb_eq. apply (IH [] Hp).
      * cbn [map]. rewrite !glob_star_cons by exact eqb_eq.
        rewrite <- (IH (d :: s) Hp). cbn [map].
        rewrite IHs; [reflexivity|].
        simpl in Hp. apply andb_true_iff in Hp; tauto.
    + destruct s as [|d s]; [reflexivity|]. cbn [map].
      rewrite !glob_sym_cons by exact E.
      simpl in H, Hp. apply andb_true_iff in H as [H _].
      apply andb_true_iff in H as [H _].
      apply andb_true_iff in Hp as [_ Hp].
      rewrite (IH s Hp). rewrite E in H. simpl in H.
      destruct (eqb c quest); [reflexivity|]. simpl in *.
      apply Bool.eqb_prop in H. rewrite H. reflexivity.
Qed.

(** ["a*bc"] against ["a" ++ filler ++ "bc"] and ["a" ++ filler ++ "bd"],
    for any letters that are no markers. *)
Section Filler.
Variables la lb lc ld : sym.
Hypothesis la_lit : eqb la star = false.
Hypothesis lb_lit : eqb lb star = false.
Hypothesis lc_lit : eqb lc star = false.
Hypothesis lc_quest : eqb lc quest = false.
Hypothesis lc_ld : eqb lc ld = false.

Lemma glob_filler_found filler :
  glob [la; star; lb; lc] (la :: filler ++ [lb; lc]) = true.
Proof.
  rewrite glob_sym_cons, eqb_refl, orb_true_r by assumption.
  cbn [andb]. apply glob_star_grow; [exact eqb_eq|].
  apply glob_star_intro; [exact eqb_eq|]. apply glob_self.
Qed.

Lemma glob_tail_differs s :
  glob [lb; lc] (s ++ [lb; ld]) = false.
Proof.
  apply not_true_is_false. intros H.
  pose proof H as L. apply glob_nostar_length in L; [|repeat constructor; auto].
  rewrite length_app in L. simpl in L.
  destruct s; [|simpl in L; lia].
  cbn [app] in H. rewrite !glob_sym_cons in H by auto.
  rewrite lc_quest, lc_ld in H. simpl in H.
  rewrite andb_false_r in H. discriminate.
Qed.

Lemma glob_filler_missed filler :
  glob [la; star; lb; lc] (la :: filler ++ [lb; ld]) = false.
Proof.
  rewrite glob_sym_cons by exact la_lit.
  replace (glob [star; lb; lc] (filler ++ [lb; ld])) with false;
    [apply andb_false_r|].
  symmetry. induction filler as [|x filler IH].
  - pose proof (glob_tail_differs []) as H0. cbn [app] in *.
    rewrite glob_star_cons, H0 by exact eqb_eq. cbn [orb].
    apply not_true_is_false. intros H. apply glob_need in H; [|exact eqb_eq].
    unfold Pattern.need in H. cbn [filter] in H.
    rewrite eqb_refl, lb_lit, lc_lit in H by exact eqb_eq. simpl in H. lia.
  - cbn [app]. rewrite glob_star_cons by exact eqb_eq.
    rewrite IH, orb_false_r. apply (glob_tail_differs (x :: filler)).
Qed.

End Filler.

End Laws.

(** The semantics does not depend on how symbols are encoded. *)
Lemma glob_map {A B : Type} (eqbA : A -> A -> bool) (eqbB : B -> B -> bool)
      (starA questA : A) (f : A -> B) :
  (forall a b, eqbB (f a) (f b) = eqbA a b) ->
  forall p s, Pattern.glob eqbB (f starA) (f questA) (map f p) (map f s)
              = Pattern.glob eqbA starA questA p s.
Proof.
  intros Hf. induction p as [|c p IH]; intros s.
  - destruct s; reflexivity.
  - cbn [map]. destruct (eqbA c starA) eqn:E.
    + assert (E' : eqbB (f c) (f starA) = true) by (rewrite Hf; exact E).
      induction s as [|d s IHs]; cbn [map].
      * rewrite !glob_wild_nil by assumption. apply (IH []).
      * rewrite !glob_wild_cons by assumption.
        rewrite <- IHs, <- (IH (d :: s)). reflexivity.
    + assert (E' : eqbB (f c) (f starA) = false) by (rewrite Hf; exact E).
      destruct s as [|d s]; cbn [map].
      * rewrite !glob_sym_nil by assumption. reflexivity.
      * rewrite !glob_sym_cons by assumption. rewrite !Hf, IH. reflexivity.
Qed.

(** ** The two matchers *)

Lemma byte_eqb_eq a b : Byte.eqb a b = true <-> a = b.
Proof. split; [apply Byte.byte_dec_bl | apply Byte.byte_dec_lb]. Qed.

Lemma ascii_correct P S :
  Ascii.FastWildCompareAscii P S = Returned (ascii_glob P S).
Proof.
  unfold Ascii.FastWildCompareAscii. rewrite ascii_is_instance.
  apply run_returns; [exact byte_eqb_eq | apply Nat.le_refl].
Qed.

Lemma runes_correct P S :
  Runes.FastWildCompareRuneSlices P S = Returned (rune_glob P S).
Proof.
  unfold Runes.FastWildCompareRuneSlices. rewrite runes_is_instance.
  apply run_returns; [exact Z.eqb_eq | apply Nat.le_refl].
Qed.

Lemma returned_true_iff {A : Type} (b : bool) :
  @Returned A b = Returned true <-> b = true.
Proof. split; [intros H; injection H; auto | intros ->; reflexivity]. Qed.

Lemma rune_of_byte_inj a b : rune_of_byte a = rune_of_byte b -> a = b.
Proof.
  unfold rune_of_byte. intros H. apply N2Z.inj in H.
  pose proof (Byte.of_to_N a) as Ha. pose proof (Byte.of_to_N b) as Hb.
  rewrite H in Ha. congruence.
Qed.

Lemma rune_of_byte_eqb a b :
  Z.eqb (rune_of_byte a) (rune_of_byte b) = Byte.eqb a b.
Proof.
  apply eq_true_iff_eq. rewrite Z.eqb_eq, byte_eqb_eq. split.
  - apply rune_of_byte_inj.
  - intros ->; reflexivity.
Qed.

Lemma runes_of_ascii_map s r :
  runes_of_ascii s = Some r -> r = map rune_of_byte s.
Proof.
  revert r; induction s as [|b s IH]; intros r; simpl.
  - intros H; injection H as <-; reflexivity.
  - destruct (is_ascii b); [|discriminate].
    destruct (runes_of_ascii s) as [r'|]; [|discriminate].
    intros H; injection H as <-. rewrite (IH r' eq_refl). reflexivity.
Qed.

Lemma rune_glob_of_bytes P S :
  rune_glob (map rune_of_byte P) (map rune_of_byte S) = ascii_glob P S.
Proof.
  unfold rune_glob, ascii_glob.
  apply (glob_map Byte.eqb Z.eqb Ascii.star Ascii.quest rune_of_byte).
  exact rune_of_byte_eqb.
Qed.

Lemma ascii_any_budget fuel P S :
  budget P S <= fuel ->
  Ascii.run fuel P S = Ascii.FastWildCompareAscii P S.
Proof.
  intros L. rewrite ascii_correct, ascii_is_instance.
  apply run_returns; [exact byte_eqb_eq | exact L].
Qed.

Lemma runes_any_budget fuel P S :
  budget P S <= fuel ->
  Runes.run fuel P S = Runes.FastWildCompareRuneSlices P S.
Proof.
  intros L. rewrite runes_correct, runes_is_instance.
  apply run_returns; [exact Z.eqb_eq | exact L].
Qed.

(** ** Test cases of the repository

    [test(tame, wild, expected)] of the repository calls the matcher on
    [(wild, tame)]. *)

Example ascii_tests :
  Ascii.FastWildCompareAscii (go_string "Hi*") (go_string "Hi") = Returned true /\
  Ascii.FastWildCompareAscii (go_string "ab*d") (go_string "abc") = Returned false /\
  Ascii.FastWildCompareAscii (go_string "*issip*ss*") (go_string "mississipissippi")
    = Returned true /\
  Ascii.FastWildCompareAscii (go_string "xxxx*zzy*fffff") (go_string "xxxx*zzzzzzzzy*f")
    = Returned false /\
  Ascii.FastWildCompareAscii (go_string "*a?b") (go_string "caaab") = Returned true /\
  Ascii.FastWildCompareAscii (go_string "*aa?") (go_string "aaaaa") = Returned true /\
  Ascii.FastWildCompareAscii (go_string "a*aar") (go_string "a*ar") = Returned false /\
  Ascii.FastWildCompareAscii (go_string "?b*??") (go_string "abcd") = Returned true /\
  Ascii.FastWildCompareAscii (go_string "?a*??") (go_string "abcd") = Returned false /\
  Ascii.FastWildCompareAscii (go_string "?*b*?*d*?") (go_string "abcde") = Returned true /\
  Ascii.FastWildCompareAscii (go_string "********a********b********c********")
    (go_string "abc") = Returned true /\
  Ascii.FastWildCompareAscii (go_string "*?") [] = Returned false /\
  Ascii.FastWildCompareAscii [] (go_string "a") = Returned false.
Proof. repeat split; vm_compute; reflexivity. Qed.

(** Runes outside ASCII, from the repository's UTF-8 tests: the signs
    U+269B U+2696 U+2601 against the same with U+1F344 in the middle, and
    the hieroglyphs U+132CD U+132D4 U+1338D against patterns with ['?']. *)
Example rune_tests :
  Runes.FastWildCompareRuneSlices [9883; 127812; 9729]%Z [9883; 9878; 9729]%Z
    = Returned false /\
  Runes.FastWildCompareRuneSlices [9883; 9878; 9729; 48]%Z [9883; 9878; 9729; 79]%Z
    = Returned false /\
  Runes.FastWildCompareRuneSlices [78541; 78548; 63]%Z [78541; 78548; 78733]%Z
    = Returned true /\
  Runes.FastWildCompareRuneSlices [78541; 63; 78548; 78733]%Z [78541; 78548; 78733]%Z
    = Returned false /\
  Runes.FastWildCompareRuneSlices (go_runes "*a?b") (go_runes "caaab") = Returned true.
Proof. repeat split; vm_compute; reflexivity. Qed.

(** The model does panic where Go would: the scan of lines 72-78 entered
    at the end of the subject reads out of range. *)
Example first_candidate_out_of_range :
  Ascii.first_candidate 4 (go_string "*b") (go_string "a") 1 1 = Panicked.
Proof. reflexivity. Qed.

(** Replace the string literals by the lists they stand for. *)
Ltac literals :=
  repeat match goal with
    | |- context [go_string ?s] =>
        let x := eval vm_compute in (go_string s) in
        change (go_string s) with x
    | |- context [go_runes ?s] =>
        let x := eval vm_compute in (go_runes s) in
        change (go_runes s) with x
    end.

(** ** The claims of the specification *)

(** C1.  For every pattern [P] and subject [S], [FastWildCompareAscii P S]
    returns the verdict of the exhaustive search [glob], and so returns
    [true] exactly when [S] matches [P] in the reference semantics:
    literals equal by value, ['?'] one symbol, ['*'] any block of symbols
    for some split of the subject.  The same holds of
    [FastWildCompareRuneSlices]. *)
Theorem matcher_decides_glob :
  (forall P S,
     Ascii.FastWildCompareAscii P S = Returned (ascii_glob P S) /\
     (Ascii.FastWildCompareAscii P S = Returned true <-> ascii_matches P S)) /\
  (forall P S,
     Runes.FastWildCompareRuneSlices P S = Returned (rune_glob P S) /\
     (Runes.FastWildCompareRuneSlices P S = Returned true <-> rune_matches P S)).
Proof.
  split; intros P S.
  - split; [apply ascii_correct|].
    rewrite ascii_correct, returned_true_iff.
    apply glob_Matches. exact byte_eqb_eq.
  - split; [apply runes_correct|].
    rewrite runes_correct, returned_true_iff.
    apply glob_Matches. exact Z.eqb_eq.
Qed.

(** C2.  Both functions are total: for every pattern and subject, both
    empty included, they return [true] or [false], and every larger loop
    budget gives the same verdict, so no loop runs on for ever.  A retry
    is bounded because it moves the checkpoint in the subject strictly
    forward, and never past the subject's end. *)
Theorem bounded_retry :
  (forall P S, exists b,
     Ascii.FastWildCompareAscii P S = Returned b /\
     forall fuel, budget P S <= fuel -> Ascii.run fuel P S = Returned b) /\
  (forall P S, exists b,
     Runes.FastWildCompareRuneSlices P S = Returned b /\
     forall fuel, budget P S <= fuel -> Runes.run fuel P S = Returned b) /\
  (forall fuel P S iWildSequence iTameSequence iWild' iTame' iWS' iTS',
     Ascii.backtrack fuel P S iWildSequence iTameSequence
       = Normal (iWild', iTame', iWS', iTS') ->
     iTameSequence < iTS' /\ iTS' < length S) /\
  (forall fuel P S iWildSequence iTameSequence iWild' iTame' iWS' iTS',
     Runes.backtrack fuel P S iWildSequence iTameSequence
       = Normal (iWild', iTame', iWS', iTS') ->
     iTameSequence < iTS' /\ iTS' < length S).
Proof.
  split; [|split; [|split]].
  - intros P S. exists (ascii_glob P S). split; [apply ascii_correct|].
    intros fuel L. rewrite (ascii_any_budget _ _ L). apply ascii_correct.
  - intros P S. exists (rune_glob P S). split; [apply runes_correct|].
    intros fuel L. rewrite (runes_any_budget _ _ L). apply runes_correct.
  - intros fuel P S x y i' j' x' y' H.
    change (Ascii.backtrack fuel P S x y)
      with (Matcher.backtrack Byte.eqb Ascii.quest fuel P S x y) in H.
    apply backtrack_advances in H. tauto.
  - intros fuel P S x y i' j' x' y' H.
    change (Runes.backtrack fuel P S x y)
      with (Matcher.backtrack Z.eqb Runes.quest fuel P S x y) in H.
    apply backtrack_advances in H. tauto.
Qed.

(** The retry of ["*ab"] against ["aab"], from the checkpoint [(1, 0)]. *)
Lemma bounded_retry_witness :
  Ascii.backtrack 12 (go_string "*ab") (go_string "aab") 1 0
    = Normal (1, 1, 1, 1) /\
  (0 < 1 /\ 1 < length (go_string "aab")).
Proof.
  split; [reflexivity|].
  exact (proj1 (proj2 (proj2 bounded_retry))
           12 (go_string "*ab") (go_string "aab") 1 0 1 1 1 1 eq_refl).
Defined.

(** C3.  On a pattern and a subject of single-byte (ASCII) symbols,
    [FastWildCompareAscii] on the bytes and [FastWildCompareRuneSlices]
    on the corresponding runes return the same result. *)
Theorem width_equivalence P S rP rS :
  runes_of_ascii P = Some rP -> runes_of_ascii S = Some rS ->
  Ascii.FastWildCompareAscii P S = Runes.FastWildCompareRuneSlices rP rS.
Proof.
  intros HP HS.
  apply runes_of_ascii_map in HP, HS; subst rP rS.
  rewrite ascii_correct, runes_correct, rune_glob_of_bytes. reflexivity.
Qed.

Lemma width_equivalence_witness :
  Ascii.FastWildCompareAscii (go_string "*a?b") (go_string "caaab")
  = Runes.FastWildCompareRuneSlices (go_runes "*a?b") (go_runes "caaab").
Proof.
  apply (@width_equivalence (go_string "*a?b") (go_string "caaab"));
    reflexivity.
Defined.

(** C4.  Collapsing every maximal run of ['*'] in the pattern to a single
    ['*'] does not change the result, for either function. *)
Theorem star_runs_collapse :
  (forall P S,
     Ascii.FastWildCompareAscii P S
     = Ascii.FastWildCompareAscii (Pattern.collapseStarRuns Byte.eqb Ascii.star P) S) /\
  (forall P S,
     Runes.FastWildCompareRuneSlices P S
     = Runes.FastWildCompareRuneSlices (Pattern.collapseStarRuns Z.eqb Runes.star P) S).
Proof.
  split; intros P S.
  - rewrite !ascii_correct. unfold ascii_glob.
    rewrite glob_collapse by exact byte_eqb_eq. reflexivity.
  - rewrite !runes_correct. unfold rune_glob.
    rewrite glob_collapse by exact Z.eqb_eq. reflexivity.
Qed.

(** C5.  For every filler, ["a*bc"] matches ["a" ++ filler ++ "bc"] and
    does not match ["a" ++ filler ++ "bd"], for either function. *)
Theorem backtracking_finds_the_suffix :
  (forall filler,
     Ascii.FastWildCompareAscii (go_string "a*bc")
       (go_string "a" ++ filler ++ go_string "bc") = Returned true /\
     Ascii.FastWildCompareAscii (go_string "a*bc")
       (go_string "a" ++ filler ++ go_string "bd") = Returned false) /\
  (forall filler,
     Runes.FastWildCompareRuneSlices (go_runes "a*bc")
       (go_runes "a" ++ filler ++ go_runes "bc") = Returned true /\
     Runes.FastWildCompareRuneSlices (go_runes "a*bc")
       (go_runes "a" ++ filler ++ go_runes "bd") = Returned false).
Proof.
  split; intros filler; split.
  - rewrite ascii_correct. f_equal. unfold ascii_glob. literals. cbn [app].
    apply glob_filler_found; [exact byte_eqb_eq | reflexivity].
  - rewrite ascii_correct. f_equal. unfold ascii_glob. literals. cbn [app].
    apply glob_filler_missed; [exact byte_eqb_eq | reflexivity..].
  - rewrite runes_correct. f_equal. unfold rune_glob. literals. cbn [app].
    apply glob_filler_found; [exact Z.eqb_eq | reflexivity].
  - rewrite runes_correct. f_equal. unfold rune_glob. literals. cbn [app].
    apply glob_filler_missed; [exact Z.eqb_eq | reflexivity..].
Qed.

(** C6.  Subject symbols are only ever compared by value with the
    literals of the pattern: a relabelling of the subject that keeps the
    outcome of each such comparison keeps the result, whether or not the
    subject holds symbols whose value is that of ['*'] or ['?'].  So
    ["a*b"] matches ["a*abab"] and ["*"] matches ["*"], while a ['*'] or
    ['?'] in the subject is accepted by no other literal. *)
Theorem subject_symbols_are_literals :
  (forall f P S,
     Pattern.respects_literals Byte.eqb Ascii.star Ascii.quest f P S = true ->
     Ascii.FastWildCompareAscii P (map f S) = Ascii.FastWildCompareAscii P S) /\
  (forall f P S,
     Pattern.respects_literals Z.eqb Runes.star Runes.quest f P S = true ->
     Runes.FastWildCompareRuneSlices P (map f S)
     = Runes.FastWildCompareRuneSlices P S) /\
  Ascii.FastWildCompareAscii (go_string "a*b") (go_string "a*abab")
    = Returned true /\
  Ascii.FastWildCompareAscii (go_string "*") (go_string "*") = Returned true /\
  Ascii.FastWildCompareAscii (go_string "ab") (go_string "a*") = Returned false /\
  Ascii.FastWildCompareAscii (go_string "ab") (go_string "a?") = Returned false /\
  Runes.FastWildCompareRuneSlices (go_runes "a*b") (go_runes "a*abab")
    = Returned true /\
  Runes.FastWildCompareRuneSlices (go_runes "*") (go_runes "*") = Returned true /\
  Runes.FastWildCompareRuneSlices (go_runes "ab") (go_runes "a*") = Returned false /\
  Runes.FastWildCompareRuneSlices (go_runes "ab") (go_runes "a?") = Returned false.
Proof.
  split; [|split; [|repeat split; vm_compute; reflexivity]].
  - intros f P S H. rewrite !ascii_correct. f_equal.
    apply glob_relabel; [exact byte_eqb_eq | exact H].
  - intros f P S H. rewrite !runes_correct. f_equal.
    apply glob_relabel; [exact Z.eqb_eq | exact H].
Qed.

(** The subject ["a*abab"] with its ['*'] relabelled to ['z']. *)
Lemma subject_symbols_are_literals_witness :
  Ascii.FastWildCompareAscii (go_string "a*b")
    (map (fun b => if Byte.eqb b Ascii.star then "z"%byte else b)
         (go_string "a*abab"))
  = Ascii.FastWildCompareAscii (go_string "a*b") (go_string "a*abab").
Proof.
  apply (proj1 subject_symbols_are_literals). reflexivity.
Defined.

(** C7.  The empty pattern matches the empty subject and no other, and
    ["?"] does not match the empty subject. *)
Theorem empty_pattern_and_lone_question :
  Ascii.FastWildCompareAscii [] [] = Returned true /\
  (forall S, S <> [] -> Ascii.FastWildCompareAscii [] S = Returned false) /\
  Ascii.FastWildCompareAscii (go_string "?") [] = Returned false /\
  Runes.FastWildCompareRuneSlices [] [] = Returned true /\
  (forall S, S <> [] -> Runes.FastWildCompareRuneSlices [] S = Returned false) /\
  Runes.FastWildCompareRuneSlices (go_runes "?") [] = Returned false.
Proof.
  repeat split; try reflexivity.
  - intros S H. rewrite ascii_correct. destruct S; [contradiction|reflexivity].
  - intros S H. rewrite runes_correct. destruct S; [contradiction|reflexivity].
Qed.

Lemma empty_pattern_and_lone_question_witness :
  Ascii.FastWildCompareAscii [] (go_string "abc") = Returned false.
Proof.
  apply (proj1 (proj2 empty_pattern_and_lone_question)). discriminate.
Defined.

(** C8.  A pattern of one or more ['*'] and nothing else matches every
    subject, the empty one included; so does ["*"]. *)
Theorem stars_match_everything :
  (forall n S, 1 <= n ->
     Ascii.FastWildCompareAscii (repeat Ascii.star n) S = Returned true) /\
  (forall S, Ascii.FastWildCompareAscii (go_string "*") S = Returned true) /\
  (forall n S, 1 <= n ->
     Runes.FastWildCompareRuneSlices (repeat Runes.star n) S = Returned true) /\
  (forall S, Runes.FastWildCompareRuneSlices (go_runes "*") S = Returned true).
Proof.
  split; [|split; [|split]].
  - intros [|n] S H; [lia|]. rewrite ascii_correct. f_equal.
    apply glob_stars; exact byte_eqb_eq.
  - intros S. rewrite ascii_correct. f_equal.
    apply (@glob_stars _ _ _ Ascii.quest byte_eqb_eq 0).
  - intros [|n] S H; [lia|]. rewrite runes_correct. f_equal.
    apply glob_stars; exact Z.eqb_eq.
  - intros S. rewrite runes_correct. f_equal.
    apply (@glob_stars _ _ _ Runes.quest Z.eqb_eq 0).
Qed.

Lemma stars_match_everything_witness :
  Ascii.FastWildCompareAscii (repeat Ascii.star 3) (go_string "abc")
  = Returned true.
Proof.
  apply (proj1 stars_match_everything). lia.
Defined.

(** C9.  Every sequence, taken as pattern and as subject, matches
    itself. *)
Theorem self_match :
  (forall S, Ascii.FastWildCompareAscii S S = Returned true) /\
  (forall S, Runes.FastWildCompareRuneSlices S S = Returned true).
Proof.
  split; intros S.
  - rewrite ascii_correct. f_equal. apply glob_self; exact byte_eqb_eq.
  - rewrite runes_correct. f_equal. apply glob_self; exact Z.eqb_eq.
Qed.

(** C10.  Whatever the pattern, the subject and the loop budget, no index
    is out of range in either function.  In particular the scan after a
    ['*'] in the first loop, which reads the subject before it checks the
    length, stays in range once entered below the subject's length. *)
Theorem index_safety :
  (forall fuel P S, in_bounds (Ascii.run fuel P S) = true) /\
  (forall fuel P S, in_bounds (Runes.run fuel P S) = true) /\
  (forall fuel P S iWild iTame,
     iWild < length P -> iTame < length S ->
     in_bounds (Ascii.first_candidate fuel P S iWild iTame) = true) /\
  (forall fuel P S iWild iTame,
     iWild < length P -> iTame < length S ->
     in_bounds (Runes.first_candidate fuel P S iWild iTame) = true).
Proof.
  split; [|split; [|split]].
  - intros fuel P S. rewrite ascii_is_instance.
    pose proof (@run_in_bounds _ _ Ascii.star Ascii.quest byte_eqb_eq P S fuel) as H.
    destruct (Matcher.run _ _ _ _ _ _); try reflexivity.
    exfalso; apply H; reflexivity.
  - intros fuel P S. rewrite runes_is_instance.
    pose proof (@run_in_bounds _ _ Runes.star Runes.quest Z.eqb_eq P S fuel) as H.
    destruct (Matcher.run _ _ _ _ _ _); try reflexivity.
    exfalso; apply H; reflexivity.
  - intros fuel P S i j Hi Hj.
    pose proof (@first_candidate_in_bounds _ Byte.eqb P S fuel i j Hi Hj) as H.
    change (Ascii.first_candidate fuel P S i j)
      with (Matcher.first_candidate Byte.eqb fuel P S i j).
    destruct (Matcher.first_candidate _ _ _ _ _ _); try reflexivity.
    exfalso; apply H; reflexivity.
  - intros fuel P S i j Hi Hj.
    pose proof (@first_candidate_in_bounds _ Z.eqb P S fuel i j Hi Hj) as H.
    change (Runes.first_candidate fuel P S i j)
      with (Matcher.first_candidate Z.eqb fuel P S i j).
    destruct (Matcher.first_candidate _ _ _ _ _ _); try reflexivity.
    exfalso; apply H; reflexivity.
Qed.

(** The scan for ['b'] in ["aab"], entered at the start. *)
Lemma index_safety_witness :
  in_bounds (Ascii.first_candidate 12 (go_string "*b") (go_string "aab") 1 0)
  = true.
Proof.
  apply (proj1 (proj2 (proj2 index_safety))); simpl; lia.
Defined.

(** ** Further laws of the reference semantics *)

Section Composition.
Variable sym : Type.
Variable eqb : sym -> sym -> bool.
Variables star quest : sym.
Hypothesis eqb_eq : forall a b, eqb a b = true <-> a = b.

Local Abbreviation glob := (Pattern.glob eqb star quest).
Local Abbreviation Matches := (Pattern.Matches star quest).

Lemma Matches_app p1 s1 p2 s2 :
  Matches p1 s1 -> Matches p2 s2 -> Matches (p1 ++ p2) (s1 ++ s2).
Proof.
  intros H1 H2. induction H1 as [|c p s Hs Hq _ IH|d p s _ IH|p u v _ IH];
    cbn [app]; auto.
  - constructor; auto.
  - constructor; auto.
  - rewrite <- app_assoc. constructor; auto.
Qed.

Lemma Matches_split p1 p2 :
  forall s, Matches (p1 ++ p2) s ->
            exists s1 s2, s = s1 ++ s2 /\ Matches p1 s1 /\ Matches p2 s2.
Proof.
  induction p1 as [|c p1 IH]; intros s H.
  - exists [], s. repeat split; auto. constructor.
  - cbn [app] in H. inversion H; subst.
    + destruct (IH _ H5) as (s1 & s2 & -> & M1 & M2).
      exists (c :: s1), s2. repeat split; auto. constructor; auto.
    + destruct (IH _ H3) as (s1 & s2 & -> & M1 & M2).
      exists (d :: s1), s2. repeat split; auto. constructor; auto.
    + destruct (IH _ H3) as (t1 & t2 & -> & M1 & M2).
      exists (s1 ++ t1), t2. rewrite app_assoc. repeat split; auto.
      constructor; auto.
Qed.

Lemma Matches_rev p s : Matches p s -> Matches (rev p) (rev s).
Proof.
  induction 1 as [|c p s Hs Hq _ IH|d p s _ IH|p u v _ IH]; cbn [rev].
  - constructor.
  - apply Matches_app; auto. repeat constructor; auto.
  - apply Matches_app; auto. repeat constructor.
  - rewrite rev_app_distr. apply Matches_app; auto.
    rewrite <- (app_nil_r (rev u)). repeat constructor.
Qed.

Lemma glob_rev p s : glob (rev p) (rev s) = glob p s.
Proof.
  apply eq_true_iff_eq. rewrite !(glob_Matches eqb star quest eqb_eq). split.
  - intros H. apply Matches_rev in H. rewrite !rev_involutive in H. exact H.
  - apply Matches_rev.
Qed.

Lemma glob_app_iff p1 p2 s :
  glob (p1 ++ p2) s = true <->
  exists s1 s2, s = s1 ++ s2 /\ glob p1 s1 = true /\ glob p2 s2 = true.
Proof.
  rewrite (glob_Matches eqb star quest eqb_eq). split.
  - intros H. apply Matches_split in H as (s1 & s2 & E & M1 & M2).
    exists s1, s2. rewrite !(glob_Matches eqb star quest eqb_eq). auto.
  - intros (s1 & s2 & -> & M1 & M2).
    rewrite (glob_Matches eqb star quest eqb_eq) in M1, M2.
    apply Matches_app; auto.
Qed.

(** A part of the pattern may give way to one that accepts at least as
    much. *)
Lemma glob_widen p1 q q' p2 s :
  (forall t, glob q t = true -> glob q' t = true) ->
  glob (p1 ++ q ++ p2) s = true -> glob (p1 ++ q' ++ p2) s = true.
Proof.
  intros Hq H.
  apply glob_app_iff in H as (s1 & s' & -> & M1 & H).
  apply glob_app_iff in H as (s2 & s3 & -> & M2 & M3).
  apply glob_app_iff. exists s1, (s2 ++ s3). repeat split; auto.
  apply glob_app_iff. exists s2, s3. repeat split; auto.
Qed.

Lemma glob_one_symbol c t :
  eqb c star = false -> glob [c] t = true -> exists d, t = [d].
Proof.
  intros Hc H. destruct t as [|d t].
  - rewrite glob_sym_nil in H by exact Hc. discriminate.
  - rewrite glob_sym_cons in H by exact Hc.
    apply andb_true_iff in H as [_ H]. destruct t; [|discriminate].
    exists d; reflexivity.
Qed.

Lemma glob_quest_one d : glob [quest] [d] = true.
Proof.
  destruct (eqb quest star) eqn:E.
  - apply eqb_eq in E. rewrite E. apply glob_only_star; exact eqb_eq.
  - rewrite glob_sym_cons, (eqb_refl eqb eqb_eq quest) by exact E. reflexivity.
Qed.

(** Patterns without markers. *)
Lemma glob_literal_eq p :
  forallb (fun c => negb (eqb c star) && negb (eqb c quest)) p = true ->
  forall s, glob p s = true <-> s = p.
Proof.
  induction p as [|c p IH]; intros Hp s.
  - destruct s; split; intros H; try reflexivity; discriminate.
  - cbn [forallb] in Hp. apply andb_true_iff in Hp as [Hc Hp].
    apply andb_true_iff in Hc as [Hs Hq].
    apply negb_true_iff in Hs, Hq.
    destruct s as [|d s].
    + rewrite glob_sym_nil by exact Hs. split; discriminate.
    + rewrite glob_sym_cons, Hq by exact Hs. cbn [orb].
      rewrite andb_true_iff, eqb_eq, (IH Hp s). split.
      * intros [-> ->]; reflexivity.
      * intros H; injection H as -> ->; auto.
Qed.

Lemma glob_empty_subject p :
  glob p [] = forallb (fun c => eqb c star) p.
Proof.
  induction p as [|c p IH]; [reflexivity|].
  cbn [forallb]. destruct (eqb c star) eqn:E.
  - rewrite glob_wild_nil by exact E. exact IH.
  - apply glob_sym_nil; exact E.
Qed.

Section Distinct.
Hypothesis quest_not_star : eqb quest star = false.

Lemma glob_questions n :
  forall s, glob (repeat quest n) s = (length s =? n).
Proof.
  induction n as [|n IH]; intros [|d s]; cbn [repeat length]; try reflexivity.
  - apply glob_sym_nil; exact quest_not_star.
  - rewrite glob_sym_cons, (eqb_refl eqb eqb_eq quest), IH by exact quest_not_star.
    reflexivity.
Qed.

Lemma glob_star_questions n :
  forall s, glob (star :: repeat quest n) s = (n <=? length s).
Proof.
  induction n as [|n IH]; intros s; cbn [repeat].
  - apply glob_only_star; exact eqb_eq.
  - destruct s as [|d s]; cbn [length].
    + rewrite glob_star_nil by exact eqb_eq.
      apply glob_sym_nil; exact quest_not_star.
    + rewrite glob_star_quest; auto. apply eqb_refl; exact eqb_eq.
Qed.

End Distinct.

End Composition.

(** ** What each small loop finds *)

Section Scans.
Variable sym : Type.
Variable eqb : sym -> sym -> bool.
Variables star quest : sym.
Hypothesis eqb_eq : forall a b, eqb a b = true <-> a = b.
Variable fuel : nat.
Variables wild tame : list sym.








End Scans.

(** ** Further properties of the two matchers *)

Lemma ascii_true P S :
  Ascii.FastWildCompareAscii P S = Returned true <->
  Pattern.glob Byte.eqb Ascii.star Ascii.quest P S = true.
Proof. rewrite ascii_correct. apply returned_true_iff. Qed.

Lemma runes_true P S :
  Runes.FastWildCompareRuneSlices P S = Returned true <->
  Pattern.glob Z.eqb Runes.star Runes.quest P S = true.
Proof. rewrite runes_correct. apply returned_true_iff. Qed.

(** X1.  A concatenated pattern matches a subject exactly when the subject
    splits in two parts that the two parts of the pattern match, for
    either function. *)
Theorem concatenated_patterns :
  (forall P1 P2 S,
     Ascii.FastWildCompareAscii (P1 ++ P2) S = Returned true <->
     exists S1 S2, S = S1 ++ S2 /\
                   Ascii.FastWildCompareAscii P1 S1 = Returned true /\
                   Ascii.FastWildCompareAscii P2 S2 = Returned true) /\
  (forall P1 P2 S,
     Runes.FastWildCompareRuneSlices (P1 ++ P2) S = Returned true <->
     exists S1 S2, S = S1 ++ S2 /\
                   Runes.FastWildCompareRuneSlices P1 S1 = Returned true /\
                   Runes.FastWildCompareRuneSlices P2 S2 = Returned true).
Proof.
  split; intros P1 P2 S.
  - rewrite ascii_true, (glob_app_iff Byte.eqb Ascii.star Ascii.quest byte_eqb_eq).
    split; intros (S1 & S2 & E & H1 & H2); exists S1, S2;
      rewrite !ascii_true in *; auto.
  - rewrite runes_true, (glob_app_iff Z.eqb Runes.star Runes.quest Z.eqb_eq).
    split; intros (S1 & S2 & E & H1 & H2); exists S1, S2;
      rewrite !runes_true in *; auto.
Qed.

(** X2.  Reversing both the pattern and the subject does not change the
    result, for either function. *)
Theorem reversal :
  (forall P S,
     Ascii.FastWildCompareAscii (rev P) (rev S)
     = Ascii.FastWildCompareAscii P S) /\
  (forall P S,
     Runes.FastWildCompareRuneSlices (rev P) (rev S)
     = Runes.FastWildCompareRuneSlices P S).
Proof.
  split; intros P S.
  - rewrite !ascii_correct. unfold ascii_glob.
    rewrite glob_rev by exact byte_eqb_eq. reflexivity.
  - rewrite !runes_correct. unfold rune_glob.
    rewrite glob_rev by exact Z.eqb_eq. reflexivity.
Qed.

Section Widening.
Variable sym : Type.
Variable eqb : sym -> sym -> bool.
Variables star quest : sym.
Hypothesis eqb_eq : forall a b, eqb a b = true <-> a = b.

Local Abbreviation glob := (Pattern.glob eqb star quest).

Lemma glob_to_quest p1 c p2 s :
  eqb c star = false ->
  glob (p1 ++ c :: p2) s = true -> glob (p1 ++ quest :: p2) s = true.
Proof.
  intros Hc. apply (glob_widen eqb star quest eqb_eq p1 [c] [quest] p2).
  intros t H. apply glob_one_symbol in H as [d ->]; auto.
  apply glob_quest_one; exact eqb_eq.
Qed.

Lemma glob_to_star p1 c p2 s :
  glob (p1 ++ c :: p2) s = true -> glob (p1 ++ star :: p2) s = true.
Proof.
  apply (glob_widen eqb star quest eqb_eq p1 [c] [star] p2).
  intros t _. apply glob_only_star; exact eqb_eq.
Qed.

Lemma glob_insert_star p1 p2 s :
  glob (p1 ++ p2) s = true -> glob (p1 ++ star :: p2) s = true.
Proof.
  apply (glob_widen eqb star quest eqb_eq p1 [] [star] p2).
  intros t _. apply glob_only_star; exact eqb_eq.
Qed.

Lemma glob_star_splits p1 p2 s :
  glob (p1 ++ star :: p2) s = true <->
  exists s1 s2 s3, s = s1 ++ s2 ++ s3 /\
                   glob p1 s1 = true /\ glob p2 s3 = true.
Proof.
  rewrite (glob_app_iff eqb star quest eqb_eq). split.
  - intros (s1 & s' & -> & H1 & H2).
    apply glob_star_split in H2 as (s2 & s3 & -> & H3); [|exact eqb_eq].
    exists s1, s2, s3; auto.
  - intros (s1 & s2 & s3 & -> & H1 & H3).
    exists s1, (s2 ++ s3). repeat split; auto.
    apply glob_star_grow; [exact eqb_eq|].
    apply glob_star_intro; [exact eqb_eq|exact H3].
Qed.

Section Literal.
Variable p : list sym.
Hypothesis p_literal :
  forallb (fun c => negb (eqb c star) && negb (eqb c quest)) p = true.

Lemma glob_prefix s :
  glob (p ++ [star]) s = true <-> exists t, s = p ++ t.
Proof.
  rewrite glob_star_splits. split.
  - intros (s1 & s2 & s3 & -> & H1 & H3).
    apply (glob_literal_eq eqb star quest eqb_eq p p_literal) in H1; subst s1.
    exists (s2 ++ s3); reflexivity.
  - intros [t ->]. exists p, t, []. rewrite app_nil_r.
    repeat split; auto. apply glob_literal_eq; auto.
Qed.

Lemma glob_suffix s :
  glob (star :: p) s = true <-> exists t, s = t ++ p.
Proof.
  change (star :: p) with ([] ++ star :: p). rewrite glob_star_splits. split.
  - intros (s1 & s2 & s3 & -> & H1 & H3).
    apply (glob_literal_eq eqb star quest eqb_eq p p_literal) in H3; subst s3.
    exists (s1 ++ s2). rewrite app_assoc; reflexivity.
  - intros [t ->]. exists [], t, p. repeat split; auto.
    apply glob_literal_eq; auto.
Qed.

Lemma glob_infix s :
  glob (star :: p ++ [star]) s = true <-> exists t u, s = t ++ p ++ u.
Proof.
  change (star :: p ++ [star]) with ([] ++ star :: (p ++ [star])).
  rewrite glob_star_splits. split.
  - intros (s1 & s2 & s3 & -> & H1 & H3).
    apply glob_prefix in H3 as [u ->].
    exists (s1 ++ s2), u. rewrite !app_assoc; reflexivity.
  - intros (t & u & ->). exists [], t, (p ++ u). repeat split; auto.
    apply glob_prefix. exists u; reflexivity.
Qed.

End Literal.

End Widening.

(** X3.  A pattern only gains matches when a symbol that is no ['*']
    becomes ['?'], when any symbol becomes ['*'], and when a ['*'] is
    inserted, for either function. *)
Theorem wider_patterns_keep_matches :
  (forall P1 c P2 S,
     c <> Ascii.star ->
     Ascii.FastWildCompareAscii (P1 ++ c :: P2) S = Returned true ->
     Ascii.FastWildCompareAscii (P1 ++ Ascii.quest :: P2) S = Returned true) /\
  (forall P1 c P2 S,
     Ascii.FastWildCompareAscii (P1 ++ c :: P2) S = Returned true ->
     Ascii.FastWildCompareAscii (P1 ++ Ascii.star :: P2) S = Returned true) /\
  (forall P1 P2 S,
     Ascii.FastWildCompareAscii (P1 ++ P2) S = Returned true ->
     Ascii.FastWildCompareAscii (P1 ++ Ascii.star :: P2) S = Returned true) /\
  (forall P1 c P2 S,
     c <> Runes.star ->
     Runes.FastWildCompareRuneSlices (P1 ++ c :: P2) S = Returned true ->
     Runes.FastWildCompareRuneSlices (P1 ++ Runes.quest :: P2) S
     = Returned true) /\
  (forall P1 c P2 S,
     Runes.FastWildCompareRuneSlices (P1 ++ c :: P2) S = Returned true ->
     Runes.FastWildCompareRuneSlices (P1 ++ Runes.star :: P2) S
     = Returned true) /\
  (forall P1 P2 S,
     Runes.FastWildCompareRuneSlices (P1 ++ P2) S = Returned true ->
     Runes.FastWildCompareRuneSlices (P1 ++ Runes.star :: P2) S
     = Returned true).
Proof.
  repeat apply conj.
  - intros P1 c P2 S Hc. rewrite !ascii_true.
    apply glob_to_quest; [exact byte_eqb_eq|].
    destruct (Byte.eqb c Ascii.star) eqn:E; auto.
    apply byte_eqb_eq in E; contradiction.
  - intros P1 c P2 S. rewrite !ascii_true.
    apply glob_to_star; exact byte_eqb_eq.
  - intros P1 P2 S. rewrite !ascii_true.
    apply glob_insert_star; exact byte_eqb_eq.
  - intros P1 c P2 S Hc. rewrite !runes_true.
    apply glob_to_quest; [exact Z.eqb_eq|].
    destruct (Z.eqb c Runes.star) eqn:E; auto.
    apply Z.eqb_eq in E; contradiction.
  - intros P1 c P2 S. rewrite !runes_true.
    apply glob_to_star; exact Z.eqb_eq.
  - intros P1 P2 S. rewrite !runes_true.
    apply glob_insert_star; exact Z.eqb_eq.
Qed.

(** ["abc"] matches ["abc"], hence so does ["a?c"]. *)
Lemma wider_patterns_keep_matches_witness :
  Ascii.FastWildCompareAscii (go_string "a?c") (go_string "abc")
  = Returned true.
Proof.
  apply (proj1 wider_patterns_keep_matches
           (go_string "a") "b"%byte (go_string "c") (go_string "abc")).
  - discriminate.
  - reflexivity.
Defined.

(** X4.  A pattern without ['*'] and ['?'] matches its own sequence of
    symbols and nothing else, for either function. *)
Theorem literal_pattern_is_equality :
  (forall P S,
     forallb ascii_literal P = true ->
     (Ascii.FastWildCompareAscii P S = Returned true <-> S = P)) /\
  (forall P S,
     forallb rune_literal P = true ->
     (Runes.FastWildCompareRuneSlices P S = Returned true <-> S = P)).
Proof.
  split; intros P S H.
  - rewrite ascii_true. apply glob_literal_eq; [exact byte_eqb_eq|exact H].
  - rewrite runes_true. apply glob_literal_eq; [exact Z.eqb_eq|exact H].
Qed.

Lemma literal_pattern_is_equality_witness :
  Ascii.FastWildCompareAscii (go_string "abc") (go_string "abc")
    = Returned true <->
  go_string "abc" = go_string "abc".
Proof.
  apply (proj1 literal_pattern_is_equality). reflexivity.
Defined.

(** X5.  A pattern with a ['*'] in it matches a subject exactly when the
    subject splits in three parts, the first matched by the pattern
    before the ['*'] and the third by the pattern after it, for either
    function. *)
Theorem star_splits_the_subject :
  (forall P1 P2 S,
     Ascii.FastWildCompareAscii (P1 ++ Ascii.star :: P2) S = Returned true <->
     exists S1 S2 S3, S = S1 ++ S2 ++ S3 /\
                      Ascii.FastWildCompareAscii P1 S1 = Returned true /\
                      Ascii.FastWildCompareAscii P2 S3 = Returned true) /\
  (forall P1 P2 S,
     Runes.FastWildCompareRuneSlices (P1 ++ Runes.star :: P2) S
       = Returned true <->
     exists S1 S2 S3, S = S1 ++ S2 ++ S3 /\
                      Runes.FastWildCompareRuneSlices P1 S1 = Returned true /\
                      Runes.FastWildCompareRuneSlices P2 S3 = Returned true).
Proof.
  split; intros P1 P2 S.
  - rewrite ascii_true,
      (glob_star_splits Byte.eqb Ascii.star Ascii.quest byte_eqb_eq).
    split; intros (S1 & S2 & S3 & E & H1 & H2); exists S1, S2, S3;
      rewrite !ascii_true in *; auto.
  - rewrite runes_true,
      (glob_star_splits Z.eqb Runes.star Runes.quest Z.eqb_eq).
    split; intros (S1 & S2 & S3 & E & H1 & H2); exists S1, S2, S3;
      rewrite !runes_true in *; auto.
Qed.

(** X6.  For a pattern [P] without ['*'] and ['?']: [P*] matches the
    subjects that start with [P], [*P] those that end with [P], and
    [*P*] those that contain [P], for either function. *)
Theorem prefix_suffix_and_infix :
  (forall P S,
     forallb ascii_literal P = true ->
     (Ascii.FastWildCompareAscii (P ++ [Ascii.star]) S = Returned true <->
      exists t, S = P ++ t) /\
     (Ascii.FastWildCompareAscii (Ascii.star :: P) S = Returned true <->
      exists t, S = t ++ P) /\
     (Ascii.FastWildCompareAscii (Ascii.star :: P ++ [Ascii.star]) S
        = Returned true <->
      exists t u, S = t ++ P ++ u)) /\
  (forall P S,
     forallb rune_literal P = true ->
     (Runes.FastWildCompareRuneSlices (P ++ [Runes.star]) S = Returned true <->
      exists t, S = P ++ t) /\
     (Runes.FastWildCompareRuneSlices (Runes.star :: P) S = Returned true <->
      exists t, S = t ++ P) /\
     (Runes.FastWildCompareRuneSlices (Runes.star :: P ++ [Runes.star]) S
        = Returned true <->
      exists t u, S = t ++ P ++ u)).
Proof.
  split; intros P S H.
  - rewrite !ascii_true. repeat split.
    + apply glob_prefix; auto using byte_eqb_eq.
    + apply glob_prefix; auto using byte_eqb_eq.
    + apply glob_suffix; auto using byte_eqb_eq.
    + apply glob_suffix; auto using byte_eqb_eq.
    + apply glob_infix; auto using byte_eqb_eq.
    + apply glob_infix; auto using byte_eqb_eq.
  - rewrite !runes_true. repeat split.
    + apply glob_prefix; auto using Z.eqb_eq.
    + apply glob_prefix; auto using Z.eqb_eq.
    + apply glob_suffix; auto using Z.eqb_eq.
    + apply glob_suffix; auto using Z.eqb_eq.
    + apply glob_infix; auto using Z.eqb_eq.
    + apply glob_infix; auto using Z.eqb_eq.
Qed.

(** ["*ss*"] matches ["mississippi"], which contains ["ss"]. *)
Lemma prefix_suffix_and_infix_witness :
  Ascii.FastWildCompareAscii (Ascii.star :: go_string "ss" ++ [Ascii.star])
    (go_string "mississippi") = Returned true.
Proof.
  apply (proj2 (proj2 (proj1 prefix_suffix_and_infix
                         (go_string "ss") (go_string "mississippi") eq_refl))).
  exists (go_string "mi"), (go_string "issippi"). reflexivity.
Defined.

(** X7.  A pattern of [n] times ['?'] matches exactly the subjects of
    length [n], and ['*'] followed by [n] times ['?'] exactly those of
    length at least [n], for either function. *)
Theorem question_marks_count_symbols :
  (forall n S,
     Ascii.FastWildCompareAscii (repeat Ascii.quest n) S
     = Returned (length S =? n)) /\
  (forall n S,
     Ascii.FastWildCompareAscii (Ascii.star :: repeat Ascii.quest n) S
     = Returned (n <=? length S)) /\
  (forall n S,
     Runes.FastWildCompareRuneSlices (repeat Runes.quest n) S
     = Returned (length S =? n)) /\
  (forall n S,
     Runes.FastWildCompareRuneSlices (Runes.star :: repeat Runes.quest n) S
     = Returned (n <=? length S)).
Proof.
  repeat apply conj; intros n S.
  - rewrite ascii_correct. f_equal.
    apply glob_questions; [exact byte_eqb_eq | reflexivity].
  - rewrite ascii_correct. f_equal.
    apply glob_star_questions; [exact byte_eqb_eq | reflexivity].
  - rewrite runes_correct. f_equal.
    apply glob_questions; [exact Z.eqb_eq | reflexivity].
  - rewrite runes_correct. f_equal.
    apply glob_star_questions; [exact Z.eqb_eq | reflexivity].
Qed.

(** X8.  A subject that is matched has at least as many symbols as the
    pattern has symbols other than ['*'], and exactly as many as the
    pattern when the pattern has no ['*'], for either function. *)
Theorem matched_subject_length :
  (forall P S,
     Ascii.FastWildCompareAscii P S = Returned true ->
     length (filter (fun c => negb (ascii_is_star c)) P) <= length S /\
     (forallb (fun c => negb (ascii_is_star c)) P = true ->
      length S = length P)) /\
  (forall P S,
     Runes.FastWildCompareRuneSlices P S = Returned true ->
     length (filter (fun c => negb (rune_is_star c)) P) <= length S /\
     (forallb (fun c => negb (rune_is_star c)) P = true ->
      length S = length P)).
Proof.
  split; intros P S H.
  - apply ascii_true in H. split.
    + apply (glob_need Byte.eqb Ascii.star Ascii.quest byte_eqb_eq P S H).
    + intros Hp. apply (glob_nostar_length Byte.eqb Ascii.star Ascii.quest S);
        auto.
      apply Forall_forall. intros c Hc.
      rewrite forallb_forall in Hp. apply negb_true_iff. exact (Hp c Hc).
  - apply runes_true in H. split.
    + apply (glob_need Z.eqb Runes.star Runes.quest Z.eqb_eq P S H).
    + intros Hp. apply (glob_nostar_length Z.eqb Runes.star Runes.quest S);
        auto.
      apply Forall_forall. intros c Hc.
      rewrite forallb_forall in Hp. apply negb_true_iff. exact (Hp c Hc).
Qed.

(** ["a*c?"] needs three symbols and ["abcd"] has four; ["a?c"] and
    ["abc"] have three each. *)
Lemma matched_subject_length_witness :
  (3 <= length (go_string "abcd")) /\
  length (go_string "abc") = length (go_string "a?c").
Proof.
  split.
  - exact (proj1 (proj1 matched_subject_length
                    (go_string "a*c?") (go_string "abcd") eq_refl)).
  - exact (proj2 (proj1 matched_subject_length
                    (go_string "a?c") (go_string "abc") eq_refl) eq_refl).
Defined.

(** X9.  The empty subject is matched by the patterns made of ['*'] only,
    the empty pattern among them, and by no other, for either function. *)
Theorem empty_subject :
  (forall P, Ascii.FastWildCompareAscii P []
             = Returned (forallb ascii_is_star P)) /\
  (forall P, Runes.FastWildCompareRuneSlices P []
             = Returned (forallb rune_is_star P)).
Proof.
  split; intros P.
  - rewrite ascii_correct. f_equal. apply glob_empty_subject.
  - rewrite runes_correct. f_equal. apply glob_empty_subject.
Qed.







(** ** The test harness *)

(** X13.  [test(tame, wild, expected)] returns whether [expected] is the
    verdict of the pattern [wild] on the subject [tame]: that of
    [FastWildCompareAscii] on the strings as they are, or, when
    [bCompareCaseInsensitive] is set, that of [FastWildCompareRuneSlices] on
    the runes of the lowered strings.  It does not panic. *)
Theorem test_compares_with_expected :
  forall bCompareCaseInsensitive rune_slice ToLower bTestingUtf8
         tame_string wild_string bExpectedResult,
    Harness.test bCompareCaseInsensitive rune_slice ToLower bTestingUtf8
                 tame_string wild_string bExpectedResult
    = Returned
        (Bool.eqb bExpectedResult
           (if bCompareCaseInsensitive
            then rune_glob (rune_slice (ToLower wild_string))
                           (rune_slice (ToLower tame_string))
            else ascii_glob wild_string tame_string)).
Proof.
  intros cs rune_slice ToLower utf8 tame wild e. unfold Harness.test.
  destruct cs; cbn [Harness.bComparePerformance Harness.bTestUtf8 andb].
  - rewrite runes_correct. cbn [Harness.call bind].
    destruct (Bool.eqb e _); reflexivity.
  - rewrite ascii_correct. cbn [Harness.call bind].
    destruct (Bool.eqb e _); reflexivity.
Qed.

(** X14.  With [bCompareCaseInsensitive] off, the three suites of ASCII
    cases, [testWild], [testTame] and [testEmpty], print that they
    passed. *)
Theorem ascii_suites_pass :
  forall rune_slice ToLower,
    Harness.testWild false rune_slice ToLower
      = Normal "Passed wildcard tests"%string /\
    Harness.testTame false rune_slice ToLower
      = Normal "Passed tame string tests"%string /\
    Harness.testEmpty false rune_slice ToLower
      = Normal "Passed empty string tests"%string.
Proof.
  intros rune_slice ToLower. repeat split; vm_compute; reflexivity.
Qed.

(** ** Where the cursors stay *)


Section Cursors.
Variable sym : Type.
Variable eqb : sym -> sym -> bool.
Variables star quest : sym.
Hypothesis eqb_eq : forall a b, eqb a b = true <-> a = b.
Variable fuel : nat.
Variables wild tame : list sym.

Local Abbreviation first_loop :=
  (Matcher.first_loop eqb star quest fuel wild tame).
Local Abbreviation second_loop :=
  (Matcher.second_loop eqb star quest fuel wild tame).

Local Abbreviation before_star :=
  (fun c : cursor =>
     let '(iWild, _, _, _) := c in
     exists q a, Pattern.aligned eqb star quest q a /\
                 wild = q ++ skipn iWild wild /\
                 tame = a ++ skipn iWild tame /\
                 iWild <= length wild /\ iWild <= length tame).

Local Abbreviation after_star :=
  (fun c : cursor =>
     let '(iWild, iTame, x, y) := c in
     (exists q a, Pattern.aligned eqb star quest q a /\
        skipn x wild = q ++ skipn iWild wild /\
        skipn y tame = a ++ skipn iTame tame /\
        iWild = x + length q /\ iTame = y + length a) /\
     iWild <= length wild /\ iTame <= length tame /\
     Pattern.glob eqb star quest (star :: skipn x wild) (skipn y tame)
     = Pattern.glob eqb star quest wild tame).




End Cursors.



(** X16.  Renaming the symbols of the pattern and of the subject by the
    same one-to-one function that keeps ['*'] and ['?'] does not change
    the result, for either function. *)
Theorem one_to_one_renaming :
  (forall (f g : byte -> byte) P S,
     (forall a, g (f a) = a) ->
     f Ascii.star = Ascii.star -> f Ascii.quest = Ascii.quest ->
     Ascii.FastWildCompareAscii (map f P) (map f S)
     = Ascii.FastWildCompareAscii P S) /\
  (forall (f g : Runes.rune -> Runes.rune) P S,
     (forall a, g (f a) = a) ->
     f Runes.star = Runes.star -> f Runes.quest = Runes.quest ->
     Runes.FastWildCompareRuneSlices (map f P) (map f S)
     = Runes.FastWildCompareRuneSlices P S).
Proof.
  split; intros f g P S Hg Hs Hq.
  - rewrite !ascii_correct. f_equal. unfold ascii_glob.
    assert (He : forall a b, Byte.eqb (f a) (f b) = Byte.eqb a b).
    { intros a b. apply eq_true_iff_eq. rewrite !byte_eqb_eq. split.
      - intros E. rewrite <- (Hg a), <- (Hg b), E. reflexivity.
      - intros ->; reflexivity. }
    pose proof (glob_map Byte.eqb Byte.eqb Ascii.star Ascii.quest f He P S) as K.
    rewrite Hs, Hq in K. exact K.
  - rewrite !runes_correct. f_equal. unfold rune_glob.
    assert (He : forall a b, Z.eqb (f a) (f b) = Z.eqb a b).
    { intros a b. apply eq_true_iff_eq. rewrite !Z.eqb_eq. split.
      - intros E. rewrite <- (Hg a), <- (Hg b), E. reflexivity.
      - intros ->; reflexivity. }
    pose proof (glob_map Z.eqb Z.eqb Runes.star Runes.quest f He P S) as K.
    rewrite Hs, Hq in K. exact K.
Qed.

(** Adding one to every rune from 128 on, undone by subtracting it. *)
Lemma one_to_one_renaming_witness :
  Runes.FastWildCompareRuneSlices
    (map (fun z => if (128 <=? z)%Z then (z + 1)%Z else z) [233; 42; 63]%Z)
    (map (fun z => if (128 <=? z)%Z then (z + 1)%Z else z) [233; 9731; 97]%Z)
  = Runes.FastWildCompareRuneSlices [233; 42; 63]%Z [233; 9731; 97]%Z.
Proof.
  apply (proj2 one_to_one_renaming
           (fun z => if (128 <=? z)%Z then (z + 1)%Z else z)
           (fun z => if (129 <=? z)%Z then (z - 1)%Z else z)).
  - intros a. destruct (128 <=? a)%Z eqn:E.
    + apply Z.leb_le in E.
      destruct (129 <=? a + 1)%Z eqn:E'; [lia|apply Z.leb_gt in E'; lia].
    + apply Z.leb_gt in E.
      destruct (129 <=? a)%Z eqn:E'; [apply Z.leb_le in E'; lia|reflexivity].
  - reflexivity.
  - reflexivity.
Defined.
